(** * Kubernetes ingress provider: translation of ingresses into a dynamic
      configuration (pkg/provider/kubernetes/ingress/kubernetes.go)

    A shallow embedding of the provider: the Go structs become records, the
    cluster client becomes a record of functions over one snapshot, maps
    become [gmap]s, fallible functions return a sum, a Go panic becomes the
    [Panic] outcome, and the observable effects (secret fetches, status
    updates, log lines) are collected in a trace. An int32 is carried as a
    [Z]: the code compares and prints port numbers and never computes with
    them. *)

From Stdlib Require Import ZArith String Ascii List Lia.
From Stdlib Require Import Decimal DecimalZ DecimalPos DecimalString.
From Stdlib Require Import Sorting.Sorted Permutation OrdersEx.
From stdpp Require Import base option list gmap strings sorting.

Local Open Scope Z_scope.
Local Open Scope string_scope.
Local Open Scope list_scope.

(** ** Go standard library: strings, strconv, fmt *)

(** [error] values are compared and printed only through their text. *)
Definition error := string.

(** strconv.Itoa, and the [%d] verb of fmt on an int32. *)
Definition itoa (n : Z) : string := NilZero.string_of_int (Z.to_int n).

Module strings.

(** strings.ReplaceAll(s, ".", "-") (and strings.Replace with n = -1):
    both patterns are one byte long, so the replacement is bytewise. *)
Fixpoint ReplaceAll (s : string) (old new : ascii) : string :=
  match s with
  | EmptyString => EmptyString
  | String c rest =>
      String (if Ascii.eqb c old then new else c) (ReplaceAll rest old new)
  end.

Fixpoint Join (elems : list string) (sep : string) : string :=
  match elems with
  | [] => ""
  | [e] => e
  | e :: rest => e +:+ sep +:+ Join rest sep
  end.

Definition HasPrefix (s prefix : string) : bool := String.prefix prefix s.

(** strings.Split(s, sep) for a one-byte separator; [cur] is the field
    being read, in reverse. *)
Fixpoint SplitFrom (s : string) (sep : ascii) (cur : string) : list string :=
  match s with
  | EmptyString => [String.rev cur]
  | String c rest =>
      if Ascii.eqb c sep then String.rev cur :: SplitFrom rest sep ""
      else SplitFrom rest sep (String c cur)
  end.

Definition Split (s : string) (sep : ascii) : list string := SplitFrom s sep "".

Fixpoint Contains (s : string) (c : ascii) : bool :=
  match s with
  | EmptyString => false
  | String d rest => Ascii.eqb d c || Contains rest c
  end.

End strings.

Module strconv.

(** The scanner of strconv.Unquote on a double-quoted literal: where it
    stands between two bytes of the body. *)
Inductive scan :=
| Plain
| Escape
| Hex (wide : bool) (todo : nat) (v : N)
| Oct (todo : nat) (v : N).

Definition between (lo hi c : ascii) : bool :=
  (N_of_ascii lo <=? N_of_ascii c)%N && (N_of_ascii c <=? N_of_ascii hi)%N.

Definition unhex (c : ascii) : option N :=
  if between "0" "9" c then Some (N_of_ascii c - N_of_ascii "0")%N
  else if between "a" "f" c then Some (N_of_ascii c - N_of_ascii "a" + 10)%N
  else if between "A" "F" c then Some (N_of_ascii c - N_of_ascii "A" + 10)%N
  else None.

(** utf8.ValidRune *)
Definition ValidRune (v : N) : bool :=
  ((v <? 55296) || (57343 <? v) && (v <=? 1114111))%N.

Definition newline : ascii := ascii_of_N 10.
Definition dquote : ascii := ascii_of_N 34.

Definition step (st : scan) (c : ascii) : option scan :=
  match st with
  | Plain =>
      if Ascii.eqb c newline then None
      else if Ascii.eqb c dquote then None
      else if Ascii.eqb c "\" then Some Escape
      else Some Plain
  | Escape =>
      if Ascii.eqb c "x" then Some (Hex false 2 0%N)
      else if Ascii.eqb c "u" then Some (Hex true 4 0%N)
      else if Ascii.eqb c "U" then Some (Hex true 8 0%N)
      else if between "0" "7" c then Some (Oct 2 (N_of_ascii c - N_of_ascii "0")%N)
      else if existsb (Ascii.eqb c) ["a"; "b"; "f"; "n"; "r"; "t"; "v"; "\"; dquote]%char
      then Some Plain
      else None
  | Hex wide todo v =>
      match unhex c with
      | None => None
      | Some x =>
          let v := (v * 16 + x)%N in
          match todo with
          | 1%nat => if negb wide || ValidRune v then Some Plain else None
          | _ => Some (Hex wide (Nat.pred todo) v)
          end
      end
  | Oct todo v =>
      if between "0" "7" c then
        let v := (v * 8 + (N_of_ascii c - N_of_ascii "0"))%N in
        match todo with
        | 1%nat => if (v <=? 255)%N then Some Plain else None
        | _ => Some (Oct (Nat.pred todo) v)
        end
      else None
  end.

Fixpoint scanBody (st : scan) (s : string) : bool :=
  match s with
  | EmptyString => match st with Plain => true | _ => false end
  | String c rest =>
      match step st c with
      | Some st' => scanBody st' rest
      | None => false
      end
  end.

(** Whether strconv.Unquote accepts the body between two double quotes. *)
Definition UnquoteOk (body : string) : bool := scanBody Plain body.

End strconv.

(** ** Kubernetes API objects (k8s.io/api) *)

Module intstr.
(** intstr.IntOrString: a tagged union of an int32 and a string. *)
Inductive IntOrString :=
| Int (IntVal : Z)
| String (StrVal : string).

Definition String_ (v : IntOrString) : string :=
  match v with
  | Int n => itoa n
  | String s => s
  end.
End intstr.

Module corev1.

Definition ServiceTypeExternalName : string := "ExternalName".

Module ServicePort.
Record t := mk { Name : string; Port : Z }.
End ServicePort.

Module LoadBalancerIngress.
Record t := mk { IP : string; Hostname : string }.
End LoadBalancerIngress.

Module Service.
(** [Spec.Ports], [Spec.Type], [Spec.ExternalName] and
    [Status.LoadBalancer.Ingress]; the last is a slice that the code
    compares with nil, so [None] is the nil slice. *)
Record t := mk {
  Ports : list ServicePort.t;
  Type_ : string;
  ExternalName : string;
  LoadBalancerIngress : option (list LoadBalancerIngress.t)
}.
End Service.

Module EndpointAddress.
Record t := mk { IP : string }.
End EndpointAddress.

Module EndpointPort.
Record t := mk { Name : string; Port : Z }.
End EndpointPort.

Module EndpointSubset.
Record t := mk {
  Addresses : list EndpointAddress.t;
  Ports : list EndpointPort.t
}.
End EndpointSubset.

Module Endpoints.
Record t := mk { Subsets : list EndpointSubset.t }.
End Endpoints.

Module Secret.
Record t := mk { Data : gmap string string }.
End Secret.

End corev1.

Module v1beta1.

Module IngressBackend.
Record t := mk { ServiceName : string; ServicePort : intstr.IntOrString }.
End IngressBackend.

Module HTTPIngressPath.
Record t := mk { Path : string; Backend : IngressBackend.t }.
End HTTPIngressPath.

Module IngressRule.
(** [HTTP] is a pointer to the struct holding [Paths]: [None] is nil. *)
Record t := mk { Host : string; HTTP : option (list HTTPIngressPath.t) }.
End IngressRule.

Module IngressTLS.
Record t := mk { SecretName : string }.
End IngressTLS.

Module Ingress.
(** [Spec.Backend] is a pointer: [None] is nil. *)
Record t := mk {
  Name : string;
  Namespace : string;
  Annotations : gmap string string;
  Backend : option IngressBackend.t;
  TLS : list IngressTLS.t;
  Rules : list IngressRule.t
}.
End Ingress.

End v1beta1.

(** ** The produced configuration (pkg/config, pkg/tls) *)

Module tls.
Module CertAndStores.
Record t := mk { CertFile : string; KeyFile : string }.
End CertAndStores.
End tls.

Module config.

Module Server.
Record t := mk { URL : string }.
End Server.

Module Service.
(** [LoadBalancer.Servers] and [LoadBalancer.PassHostHeader]. *)
Record t := mk { Servers : list Server.t; PassHostHeader : bool }.
End Service.

Module Router.
Record t := mk { Rule : string; Service : string; Priority : Z }.
End Router.

Module Configuration.
(** [HTTP.Routers], [HTTP.Services] and [TLS.Certificates]; [TLS] is a
    pointer left nil when there is no certificate. [HTTP.Middlewares]
    and [TCP] are created empty and never written by this provider. *)
Record t := mk {
  Routers : gmap string Router.t;
  Services : gmap string Service.t;
  TLS : option (list tls.CertAndStores.t)
}.
End Configuration.

Module Message.
Record t := mk { ProviderName : string; Configuration : Configuration.t }.
End Message.

End config.

#[global] Instance Server_eq_dec : EqDecision config.Server.t.
Proof. solve_decision. Defined.
#[global] Instance ConfService_eq_dec : EqDecision config.Service.t.
Proof. solve_decision. Defined.
#[global] Instance Router_eq_dec : EqDecision config.Router.t.
Proof. solve_decision. Defined.
#[global] Instance CertAndStores_eq_dec : EqDecision tls.CertAndStores.t.
Proof. solve_decision. Defined.
#[global] Instance Configuration_eq_dec : EqDecision config.Configuration.t.
Proof. solve_decision. Defined.

(** ** The cluster client and the provider settings *)

(** What a client getter returns, [(object, exists, err)]: every caller
    tests [err] first and [exists] next. *)
Inductive fetched (A : Type) :=
| Failed (err : error)
| Missing
| Found (a : A).
Arguments Failed {A} err.
Arguments Missing {A}.
Arguments Found {A} a.

(** The [Client] interface, read over one snapshot of the cluster. *)
Record Client := mkClient {
  GetIngresses : list v1beta1.Ingress.t;
  GetService : string -> string -> fetched corev1.Service.t;
  GetEndpoints : string -> string -> fetched corev1.Endpoints.t;
  GetSecret : string -> string -> fetched corev1.Secret.t;
  UpdateIngressStatus : string -> string -> string -> string -> option error
}.

Module EndpointIngress.
Record t := mk { IP : string; Hostname : string; PublishedService : string }.
End EndpointIngress.

(** The settings of [Provider] that translation reads; [IngressEndpoint] is
    a pointer. [lastConfiguration] is the state of the watch loop below. *)
Record Provider := mkProvider {
  IngressClass : string;
  IngressEndpoint : option EndpointIngress.t
}.

(** A Go call either returns or panics (nil dereference, index out of
    range). *)
Inductive outcome (A : Type) :=
| Returned (a : A)
| Panic.
Arguments Returned {A} a.
Arguments Panic {A}.

(** The effects of a translation that the properties below speak about. *)
Inductive event :=
| SecretFetch (namespace name : string)
| StatusReconcile (namespace name : string)
| StatusWrite (namespace name ip hostname : string)
| LogError (msg : string)
| LogDebug (msg : string).

Definition annotationKubernetesIngressClass : string := "kubernetes.io/ingress.class".
Definition traefikDefaultIngressClass : string := "traefik".
Definition MinInt32 : Z := -2147483648.

(** ** The provider *)

Definition checkStringQuoteValidity (value : string) : option error :=
  if strconv.UnquoteOk value then None else Some "invalid syntax".

Definition selects (sel : intstr.IntOrString) (p : corev1.ServicePort.t) : bool :=
  match sel with
  | intstr.Int n => bool_decide (n = corev1.ServicePort.Port p)
  | intstr.String s => bool_decide (s = corev1.ServicePort.Name p)
  end.

Definition serverURL (protocol host : string) (port : Z) : config.Server.t :=
  config.Server.mk (protocol +:+ "://" +:+ host +:+ ":" +:+ itoa port).

(** The loop of [loadService] over [endpoints.Subsets]; [port] is declared
    before the loop and keeps its value from one subset to the next. *)
Fixpoint loadSubsets (portName : string) (subsets : list corev1.EndpointSubset.t)
    (port : Z) (servers : list config.Server.t) : error + list config.Server.t :=
  match subsets with
  | [] => inr servers
  | subset :: rest =>
      let port :=
        match find (fun p => bool_decide (portName = corev1.EndpointPort.Name p))
                   (corev1.EndpointSubset.Ports subset) with
        | Some p => corev1.EndpointPort.Port p
        | None => port
        end in
      if bool_decide (port = 0) then inl "cannot define a port"
      else
        let protocol :=
          if bool_decide (port = 443) || strings.HasPrefix portName "https"
          then "https" else "http" in
        loadSubsets portName rest port
          (servers ++ map (fun addr => serverURL protocol (corev1.EndpointAddress.IP addr) port)
                          (corev1.EndpointSubset.Addresses subset))
  end.

Definition loadService (client : Client) (namespace : string)
    (backend : v1beta1.IngressBackend.t) : error + config.Service.t :=
  match GetService client namespace (v1beta1.IngressBackend.ServiceName backend) with
  | Failed err => inl err
  | Missing => inl "service not found"
  | Found service =>
      match find (selects (v1beta1.IngressBackend.ServicePort backend))
                 (corev1.Service.Ports service) with
      | None => inl "service port not found"
      | Some portSpec =>
          let portName := corev1.ServicePort.Name portSpec in
          let servers :=
            if bool_decide (corev1.Service.Type_ service = corev1.ServiceTypeExternalName)
            then inr [serverURL "http" (corev1.Service.ExternalName service)
                                (corev1.ServicePort.Port portSpec)]
            else
              match GetEndpoints client namespace
                      (v1beta1.IngressBackend.ServiceName backend) with
              | Failed endpointsErr => inl endpointsErr
              | Missing => inl "endpoints not found"
              | Found endpoints =>
                  match corev1.Endpoints.Subsets endpoints with
                  | [] => inl "subset not found"
                  | subsets => loadSubsets portName subsets 0 []
                  end
              end in
          match servers with
          | inl err => inl err
          | inr servers => inr (config.Service.mk servers true)
          end
      end
  end.

Definition shouldProcessIngress (ingressClass ingressClassAnnotation : string) : bool :=
  bool_decide (ingressClass = ingressClassAnnotation)
  || (bool_decide (String.length ingressClass = 0%nat)
      && bool_decide (ingressClassAnnotation = traefikDefaultIngressClass)).

Definition getCertificateBlocks (secret : corev1.Secret.t) (namespace secretName : string)
    : error + (string * string) :=
  let data := corev1.Secret.Data secret in
  let absent (k : string) := match data !! k with None => [k] | Some _ => [] end in
  let missingEntries := absent "tls.crt" ++ absent "tls.key" in
  if bool_decide (0 < length missingEntries)%nat then
    inl ("secret " +:+ namespace +:+ "/" +:+ secretName
         +:+ " is missing the following TLS data entries: "
         +:+ strings.Join missingEntries ", ")
  else
    let cert := default "" (data !! "tls.crt") in
    let key := default "" (data !! "tls.key") in
    let blank (k v : string) := if bool_decide (v = "") then [k] else [] in
    let missingEntries := missingEntries ++ blank "tls.crt" cert ++ blank "tls.key" key in
    if bool_decide (0 < length missingEntries)%nat then
      inl ("secret " +:+ namespace +:+ "/" +:+ secretName
           +:+ " contains the following empty TLS data entries: "
           +:+ strings.Join missingEntries ", ")
    else inr (cert, key).

(** What [getTLS] leaves behind: the cache [tlsConfigs] it writes into, its
    effects, and the error it returns, if any. *)
Record tlsResult := mkTLS {
  tlsCache : gmap string tls.CertAndStores.t;
  tlsEvents : list event;
  tlsError : option error
}.

(** The loop of [getTLS] over [ingress.Spec.TLS]. *)
Fixpoint getTLSSections (client : Client) (namespace : string)
    (sections : list v1beta1.IngressTLS.t)
    (tlsConfigs : gmap string tls.CertAndStores.t) (evs : list event) : tlsResult :=
  match sections with
  | [] => mkTLS tlsConfigs evs None
  | t :: rest =>
      let secretName := v1beta1.IngressTLS.SecretName t in
      if bool_decide (secretName = "") then
        getTLSSections client namespace rest tlsConfigs
          (evs ++ [LogDebug "Skipping TLS sub-section: No secret name provided"])
      else
        let configKey := namespace +:+ "/" +:+ secretName in
        match tlsConfigs !! configKey with
        | Some _ => getTLSSections client namespace rest tlsConfigs evs
        | None =>
            let evs := evs ++ [SecretFetch namespace secretName] in
            match GetSecret client namespace secretName with
            | Failed err =>
                mkTLS tlsConfigs evs
                  (Some ("failed to fetch secret " +:+ namespace +:+ "/" +:+ secretName
                         +:+ ": " +:+ err))
            | Missing =>
                mkTLS tlsConfigs evs
                  (Some ("secret " +:+ namespace +:+ "/" +:+ secretName
                         +:+ " does not exist"))
            | Found secret =>
                match getCertificateBlocks secret namespace secretName with
                | inl err => mkTLS tlsConfigs evs (Some err)
                | inr (cert, key) =>
                    getTLSSections client namespace rest
                      (<[configKey := tls.CertAndStores.mk cert key]> tlsConfigs) evs
                end
            end
        end
  end.

Definition getTLS (ingress : v1beta1.Ingress.t) (k8sClient : Client)
    (tlsConfigs : gmap string tls.CertAndStores.t) : tlsResult :=
  getTLSSections k8sClient (v1beta1.Ingress.Namespace ingress)
    (v1beta1.Ingress.TLS ingress) tlsConfigs [].

(** sort.Strings: ascending in the bytewise order of Go's [<] on strings.
    That order is total and two equal strings are the same string, so the
    result is the only sorted arrangement of its input, whatever algorithm
    produces it. *)
Definition stringLe (a b : string) : Prop := String.leb a b = true.

#[global] Instance stringLe_dec (a b : string) : Decision (stringLe a b).
Proof. unfold stringLe. solve_decision. Defined.

Definition sortStrings (l : list string) : list string := merge_sort stringLe l.

(** [getTLSConfig] when the range over the map yields its keys in the order
    [secretNames]; Go leaves that order unspecified. *)
Definition getTLSConfigIn (secretNames : list string)
    (tlsConfigs : gmap string tls.CertAndStores.t) : list tls.CertAndStores.t :=
  omap (fun secretName => tlsConfigs !! secretName) (sortStrings secretNames).

Definition getTLSConfig (tlsConfigs : gmap string tls.CertAndStores.t)
    : list tls.CertAndStores.t :=
  getTLSConfigIn (map_to_list tlsConfigs).*1 tlsConfigs.

Definition updateIngressStatus (p : Provider) (i : v1beta1.Ingress.t) (k8sClient : Client)
    : outcome (list event * option error) :=
  let namespace := v1beta1.Ingress.Namespace i in
  let name := v1beta1.Ingress.Name i in
  match IngressEndpoint p with
  | None => Returned ([], None)
  | Some endpoint =>
      let ip := EndpointIngress.IP endpoint in
      let hostname := EndpointIngress.Hostname endpoint in
      let publishedService := EndpointIngress.PublishedService endpoint in
      if bool_decide (String.length publishedService = 0%nat) then
        if bool_decide (String.length ip = 0%nat)
           && bool_decide (String.length hostname = 0%nat)
        then Returned ([], Some "publishedService or ip or hostname must be defined")
        else Returned ([StatusWrite namespace name ip hostname],
                       UpdateIngressStatus k8sClient namespace name ip hostname)
      else
        match strings.Split publishedService "/" with
        | [serviceNamespace; serviceName] =>
            match GetService k8sClient serviceNamespace serviceName with
            | Failed err =>
                Returned ([], Some ("cannot get service " +:+ publishedService
                                    +:+ ", received error: " +:+ err))
            | Found service =>
                match corev1.Service.LoadBalancerIngress service with
                | None =>
                    Returned ([LogDebug ("Skipping updating Ingress " +:+ namespace +:+ "/"
                                         +:+ name +:+ " due to service " +:+ publishedService
                                         +:+ " having no status set")], None)
                | Some [] => Panic
                | Some (first :: _) =>
                    let ip := corev1.LoadBalancerIngress.IP first in
                    let hostname := corev1.LoadBalancerIngress.Hostname first in
                    Returned ([StatusWrite namespace name ip hostname],
                              UpdateIngressStatus k8sClient namespace name ip hostname)
                end
            | Missing => Returned ([], Some ("missing service: " +:+ publishedService))
            end
        | _ =>
            Returned ([], Some ("invalid publishedService format "
                                +:+ "(expected 'namespace/service' format): "
                                +:+ publishedService))
        end
  end.

(** The variables of [loadConfigurationFromIngresses] while it runs:
    [conf.HTTP.Routers], [conf.HTTP.Services], [tlsConfigs], and the effects
    so far. *)
Record translation := mkTranslation {
  routers : gmap string config.Router.t;
  services : gmap string config.Service.t;
  tlsConfigs : gmap string tls.CertAndStores.t;
  events : list event
}.

Definition emit (evs : list event) (st : translation) : translation :=
  mkTranslation (routers st) (services st) (tlsConfigs st) (events st ++ evs).

Definition register (routerName : string) (router : config.Router.t)
    (serviceName : string) (service : config.Service.t) (st : translation) : translation :=
  mkTranslation (<[routerName := router]> (routers st))
                (<[serviceName := service]> (services st))
                (tlsConfigs st) (events st).

(** The service key, [serviceName] in the source. *)
Definition serviceKey (namespace : string) (backend : v1beta1.IngressBackend.t) : string :=
  strings.ReplaceAll
    (namespace +:+ "/" +:+ v1beta1.IngressBackend.ServiceName backend +:+ "/"
     +:+ intstr.String_ (v1beta1.IngressBackend.ServicePort backend)) "." "-".

Definition routerKey (host path : string) : string :=
  strings.ReplaceAll host "." "-" +:+ path.

Definition routerRule (host path : string) : string :=
  let rules :=
    if bool_decide (0 < String.length host)%nat then ["Host(`" +:+ host +:+ "`)"] else [] in
  let rules :=
    if bool_decide (0 < String.length path)%nat
    then rules ++ ["PathPrefix(`" +:+ path +:+ "`)"] else rules in
  strings.Join rules " && ".

Definition defaultBackendName : string := "default-backend".

Definition defaultRouter : config.Router.t :=
  config.Router.mk "PathPrefix(`/`)" defaultBackendName MinInt32.

(** One turn of the loop over [rule.HTTP.Paths]. *)
Definition loadPath (client : Client) (namespace host : string)
    (st : translation) (pa : v1beta1.HTTPIngressPath.t) : translation :=
  let backend := v1beta1.HTTPIngressPath.Backend pa in
  let path := v1beta1.HTTPIngressPath.Path pa in
  match loadService client namespace backend with
  | inl err => emit [LogError ("Cannot create service: " +:+ err)] st
  | inr service =>
      match checkStringQuoteValidity path with
      | Some _ => emit [LogError ("Invalid syntax for path: " +:+ path)] st
      | None =>
          register (routerKey host path)
                   (config.Router.mk (routerRule host path) (serviceKey namespace backend) 0)
                   (serviceKey namespace backend) service st
      end
  end.

(** One turn of the loop over [ingress.Spec.Rules]; [rule.HTTP] is
    dereferenced without a nil test. *)
Definition loadRule (p : Provider) (client : Client) (ingress : v1beta1.Ingress.t)
    (st : translation) (rule : v1beta1.IngressRule.t) : outcome translation :=
  let host := v1beta1.IngressRule.Host rule in
  match checkStringQuoteValidity host with
  | Some _ => Returned (emit [LogError ("Invalid syntax for host: " +:+ host)] st)
  | None =>
      match v1beta1.IngressRule.HTTP rule with
      | None => Panic
      | Some paths =>
          let st := fold_left (loadPath client (v1beta1.Ingress.Namespace ingress) host)
                              paths st in
          let st := emit [StatusReconcile (v1beta1.Ingress.Namespace ingress)
                                          (v1beta1.Ingress.Name ingress)] st in
          match updateIngressStatus p ingress client with
          | Panic => Panic
          | Returned (evs, None) => Returned (emit evs st)
          | Returned (evs, Some err) =>
              Returned (emit (evs ++ [LogError ("Error while updating ingress status: "
                                                +:+ err)]) st)
          end
      end
  end.

Fixpoint loadRules (p : Provider) (client : Client) (ingress : v1beta1.Ingress.t)
    (rules : list v1beta1.IngressRule.t) (st : translation) : outcome translation :=
  match rules with
  | [] => Returned st
  | rule :: rest =>
      match loadRule p client ingress st rule with
      | Panic => Panic
      | Returned st => loadRules p client ingress rest st
      end
  end.

(** The branch of an ingress without rules: [inl] when it ends the turn
    with [continue], [inr] when control goes on to the loop over the
    rules. *)
Definition loadDefaultBackend (client : Client) (ingress : v1beta1.Ingress.t)
    (st : translation) : translation + translation :=
  if bool_decide (length (v1beta1.Ingress.Rules ingress) = 0%nat) then
    match v1beta1.Ingress.Backend ingress with
    | None => inr st
    | Some backend =>
        match services st !! defaultBackendName with
        | Some _ => inl (emit [LogError "The default backend already exists."] st)
        | None =>
            match loadService client (v1beta1.Ingress.Namespace ingress) backend with
            | inl err => inl (emit [LogError ("Cannot create service: " +:+ err)] st)
            | inr service =>
                inr (register "/" defaultRouter defaultBackendName service st)
            end
        end
    end
  else inr st.

(** [ingress.Annotations[annotationKubernetesIngressClass]]: a key that is
    absent reads as the empty string. *)
Definition classAnnotation (ingress : v1beta1.Ingress.t) : string :=
  default "" (v1beta1.Ingress.Annotations ingress !! annotationKubernetesIngressClass).

(** One turn of the loop over the ingresses. *)
Definition loadIngress (p : Provider) (client : Client) (st : translation)
    (ingress : v1beta1.Ingress.t) : outcome translation :=
  if negb (shouldProcessIngress (IngressClass p) (classAnnotation ingress))
  then Returned st
  else
    let r := getTLS ingress client (tlsConfigs st) in
    let st := mkTranslation (routers st) (services st) (tlsCache r)
                            (events st ++ tlsEvents r) in
    let st :=
      match tlsError r with
      | Some err => emit [LogError ("Error configuring TLS: " +:+ err)] st
      | None => st
      end in
    match loadDefaultBackend client ingress st with
    | inl st => Returned st
    | inr st => loadRules p client ingress (v1beta1.Ingress.Rules ingress) st
    end.

Fixpoint loadIngresses (p : Provider) (client : Client)
    (ingresses : list v1beta1.Ingress.t) (st : translation) : outcome translation :=
  match ingresses with
  | [] => Returned st
  | ingress :: rest =>
      match loadIngress p client st ingress with
      | Panic => Panic
      | Returned st => loadIngresses p client rest st
      end
  end.

Definition emptyTranslation : translation := mkTranslation ∅ ∅ ∅ [].

Definition finish (st : translation) : config.Configuration.t :=
  let certs := getTLSConfig (tlsConfigs st) in
  config.Configuration.mk (routers st) (services st)
    (if bool_decide (0 < length certs)%nat then Some certs else None).

(** The translation, with the effects it had. *)
Definition loadConfigurationFromIngresses (p : Provider) (client : Client)
    : outcome (config.Configuration.t * list event) :=
  match loadIngresses p client (GetIngresses client) emptyTranslation with
  | Panic => Panic
  | Returned st => Returned (finish st, events st)
  end.

(** ** The watch loop of [Provide] *)

(** [p.lastConfiguration] (empty until the first publication) and the
    messages sent on [configurationChan] so far. *)
Record loopState := mkLoop {
  lastConfiguration : option config.Configuration.t;
  sent : list config.Message.t
}.

(** The comparison and publication that follow a translation. *)
Definition publish (s : loopState) (conf : config.Configuration.t) : loopState :=
  if decide (lastConfiguration s = Some conf) then s
  else mkLoop (Some conf) (sent s ++ [config.Message.mk "kubernetes" conf]).

(** The body of the loop on one event; [client] is the cluster as the client
    shows it when the event is handled. *)
Definition onEvent (p : Provider) (s : loopState) (client : Client) : outcome loopState :=
  match loadConfigurationFromIngresses p client with
  | Panic => Panic
  | Returned (conf, _) => Returned (publish s conf)
  end.

(** The loop of [operation] over the events received before the stop signal;
    a panic leaves the loop (the caller recovers it and retries), with the
    state as it was. The flag tells whether the loop ended on the stop
    signal. *)
Fixpoint operation (p : Provider) (eventsChan : list Client) (s : loopState)
    : loopState * bool :=
  match eventsChan with
  | [] => (s, true)
  | client :: rest =>
      match onEvent p s client with
      | Panic => (s, false)
      | Returned s => operation p rest s
      end
  end.

(** ** Example clusters *)

Module Examples.

Definition backend (name : string) (port : intstr.IntOrString) : v1beta1.IngressBackend.t :=
  v1beta1.IngressBackend.mk name port.

Definition rule (host path service : string) (port : Z) : v1beta1.IngressRule.t :=
  v1beta1.IngressRule.mk host
    (Some [v1beta1.HTTPIngressPath.mk path (backend service (intstr.Int port))]).

(** A cluster-kind service [web] with the ports [http] = 80 and [metrics] =
    9090, and an alias [fallback] for an external name. *)
Definition web : corev1.Service.t :=
  corev1.Service.mk [corev1.ServicePort.mk "http" 80; corev1.ServicePort.mk "metrics" 9090]
    "ClusterIP" "" None.

Definition fallback : corev1.Service.t :=
  corev1.Service.mk [corev1.ServicePort.mk "" 9000] "ExternalName"
    "external.example.org" None.

Definition webEndpoints : corev1.Endpoints.t :=
  corev1.Endpoints.mk
    [corev1.EndpointSubset.mk [corev1.EndpointAddress.mk "10.0.0.5"]
                              [corev1.EndpointPort.mk "http" 8080]].

(** Two subsets: the address of the first serves [http], the address of
    the second serves [metrics] only. *)
Definition staleEndpoints : corev1.Endpoints.t :=
  corev1.Endpoints.mk
    [corev1.EndpointSubset.mk [corev1.EndpointAddress.mk "10.0.0.1"]
                              [corev1.EndpointPort.mk "http" 8080];
     corev1.EndpointSubset.mk [corev1.EndpointAddress.mk "10.0.0.2"]
                              [corev1.EndpointPort.mk "metrics" 9090]].

Definition secret (cert key : string) : corev1.Secret.t :=
  corev1.Secret.mk (<["tls.crt" := cert]> (<["tls.key" := key]> ∅)).

Definition cluster (ingresses : list v1beta1.Ingress.t)
    (endpoints : corev1.Endpoints.t) : Client :=
  mkClient ingresses
    (fun _ name =>
       if bool_decide (name = "web") then Found web
       else if bool_decide (name = "fallback") then Found fallback
       else Missing)
    (fun _ name => if bool_decide (name = "web") then Found endpoints else Missing)
    (fun _ name =>
       if bool_decide (name = "a-secret") then Found (secret "certA" "keyA")
       else if bool_decide (name = "b-secret") then Found (secret "certB" "keyB")
       else Missing)
    (fun _ _ _ _ => None).

Definition ingress (name : string) (backend : option v1beta1.IngressBackend.t)
    (secrets : list string) (rules : list v1beta1.IngressRule.t) : v1beta1.Ingress.t :=
  v1beta1.Ingress.mk name "default" ∅ backend (map v1beta1.IngressTLS.mk secrets) rules.

Definition provider : Provider := mkProvider "" None.

Definition publishing : Provider :=
  mkProvider "" (Some (EndpointIngress.mk "192.0.2.1" "" "")).

Definition site : v1beta1.Ingress.t :=
  ingress "site" None [] [rule "example.com" "/" "web" 80].

Definition twoRules : v1beta1.Ingress.t :=
  ingress "two" None [] [rule "a.example.com" "/" "web" 80; rule "b.example.com" "/" "web" 80].

Definition hostOnly : v1beta1.Ingress.t :=
  ingress "host-only" None [] [v1beta1.IngressRule.mk "example.com" None].

Definition defaultOne : v1beta1.Ingress.t :=
  ingress "default-one" (Some (backend "fallback" (intstr.Int 9000))) [] [].

Definition defaultTwo : v1beta1.Ingress.t :=
  ingress "default-two" (Some (backend "web" (intstr.Int 80))) [] [].

(** [site] with three TLS sections, the second of which names a secret
    that the cluster does not have. *)
Definition brokenTLS : v1beta1.Ingress.t :=
  ingress "broken-tls" None ["a-secret"; "missing"; "b-secret"]
    [rule "example.com" "/" "web" 80].

Definition brokenFirst : v1beta1.Ingress.t :=
  ingress "broken-first" None ["missing"; "a-secret"] [rule "example.com" "/" "web" 80].

Definition certA : tls.CertAndStores.t := tls.CertAndStores.mk "certA" "keyA".
Definition certB : tls.CertAndStores.t := tls.CertAndStores.mk "certB" "keyB".

(** Two ingresses that name the secrets [b-secret] and [a-secret]. *)
Definition tlsB : v1beta1.Ingress.t :=
  ingress "tls-b" None ["b-secret"] [rule "example.com" "/" "web" 80].

Definition tlsA : v1beta1.Ingress.t :=
  ingress "tls-a" None ["a-secret"; "b-secret"] [rule "example.com" "/" "web" 80].

Definition siteConf : config.Configuration.t :=
  config.Configuration.mk
    {[ "example-com/" :=
         config.Router.mk "Host(`example.com`) && PathPrefix(`/`)" "default/web/80" 0 ]}
    {[ "default/web/80" :=
         config.Service.mk [config.Server.mk "http://10.0.0.5:8080"] true ]}
    None.

(** The alias service [fallback] as a target set. *)
Definition fallbackTargets : config.Service.t :=
  config.Service.mk [config.Server.mk "http://external.example.org:9000"] true.

Definition siteConfTLS : config.Configuration.t :=
  config.Configuration.mk (config.Configuration.Routers siteConf)
    (config.Configuration.Services siteConf) (Some [certA; certB]).

End Examples.

(** ** Vocabulary of the properties *)

(** The ingresses on which the status reconciler was invoked, in order. *)
Definition reconciliations (evs : list event) : list (string * string) :=
  omap (fun e => match e with
                 | StatusReconcile namespace name => Some (namespace, name)
                 | _ => None
                 end) evs.

(** The rule passes the quoting check on its host. *)
Definition hostOk (rule : v1beta1.IngressRule.t) : bool :=
  bool_decide (checkStringQuoteValidity (v1beta1.IngressRule.Host rule) = None).

(** The secrets fetched from the cluster, in order. *)
Definition secretFetches (evs : list event) : list (string * string) :=
  omap (fun e => match e with
                 | SecretFetch namespace name => Some (namespace, name)
                 | _ => None
                 end) evs.

(** What [getTLS] does with a secret that is not in the cache: the fetch,
    the test that it exists, and [getCertificateBlocks]. *)
Definition resolveSecret (client : Client) (namespace secretName : string)
    : error + tls.CertAndStores.t :=
  match GetSecret client namespace secretName with
  | Failed err =>
      inl ("failed to fetch secret " +:+ namespace +:+ "/" +:+ secretName +:+ ": " +:+ err)
  | Missing => inl ("secret " +:+ namespace +:+ "/" +:+ secretName +:+ " does not exist")
  | Found secret =>
      match getCertificateBlocks secret namespace secretName with
      | inl err => inl err
      | inr (cert, key) => inr (tls.CertAndStores.mk cert key)
      end
  end.

(** The ingress with other TLS sections. *)
Definition withTLS (ingress : v1beta1.Ingress.t) (sections : list v1beta1.IngressTLS.t)
    : v1beta1.Ingress.t :=
  v1beta1.Ingress.mk (v1beta1.Ingress.Name ingress) (v1beta1.Ingress.Namespace ingress)
    (v1beta1.Ingress.Annotations ingress) (v1beta1.Ingress.Backend ingress)
    sections (v1beta1.Ingress.Rules ingress).

(** Two runs that end alike and leave the same routers and services. *)
Definition sameHTTP (o1 o2 : outcome translation) : Prop :=
  match o1, o2 with
  | Returned st1, Returned st2 =>
      routers st1 = routers st2 ∧ services st1 = services st2
  | Panic, Panic => True
  | _, _ => False
  end.

(** A later stage of a translation: the TLS cache is the same and the
    effects have only grown. *)
Definition extends (st st' : translation) : Prop :=
  tlsConfigs st' = tlsConfigs st ∧ events st `prefix_of` events st'.

(** Two ingresses that differ at most in their TLS sections. *)
Definition sameButTLS (i1 i2 : v1beta1.Ingress.t) : Prop :=
  withTLS i1 [] = withTLS i2 [].


(** The keys of the certificates, in the order of the certificate list. *)
Definition certificateKeys (tlsConfigs : gmap string tls.CertAndStores.t) : list string :=
  sortStrings (map_to_list tlsConfigs).*1.

(** [conf.TLS.Certificates], empty when [conf.TLS] is nil. *)
Definition certificates (conf : config.Configuration.t) : list tls.CertAndStores.t :=
  default [] (config.Configuration.TLS conf).

Definition noSlash (s : string) : Prop := strings.Contains s "/" = false.

(** The ingress passes the class filter. *)
Definition processed (p : Provider) (ingress : v1beta1.Ingress.t) : bool :=
  shouldProcessIngress (IngressClass p) (classAnnotation ingress).



(** The cache after the turns of the given ingresses. *)
Definition tlsPass (p : Provider) (client : Client) (ingresses : list v1beta1.Ingress.t)
    (m : gmap string tls.CertAndStores.t) : gmap string tls.CertAndStores.t :=
  fold_left (fun m ingress =>
               if processed p ingress then tlsCache (getTLS ingress client m) else m)
            ingresses m.

(** The same cluster, listing its ingresses in another order. *)
Definition withIngresses (client : Client) (ingresses : list v1beta1.Ingress.t) : Client :=
  mkClient ingresses (GetService client) (GetEndpoints client) (GetSecret client)
           (UpdateIngressStatus client).

(** The turn of the rule panics: its host passes the quoting check, and it
    has no HTTP section or the status reconciler panics on the ingress. *)
Definition rulePanics (p : Provider) (client : Client) (ingress : v1beta1.Ingress.t)
    (rule : v1beta1.IngressRule.t) : bool :=
  hostOk rule
  && match v1beta1.IngressRule.HTTP rule with
     | None => true
     | Some _ =>
         match updateIngressStatus p ingress client with
         | Panic => true
         | Returned _ => false
         end
     end.

Definition ingressPanics (p : Provider) (client : Client) (ingress : v1beta1.Ingress.t)
    : bool :=
  processed p ingress && existsb (rulePanics p client ingress) (v1beta1.Ingress.Rules ingress).



Definition noDot (s : string) : Prop := strings.Contains s "." = false.

(** A backend reference whose namespace and service name have neither a dot
    nor a slash, and whose port name, if it has one, has no dot. *)
Definition plainReference (namespace : string) (backend : v1beta1.IngressBackend.t) : Prop :=
  noSlash namespace ∧ noDot namespace
  ∧ noSlash (v1beta1.IngressBackend.ServiceName backend)
  ∧ noDot (v1beta1.IngressBackend.ServiceName backend)
  ∧ match v1beta1.IngressBackend.ServicePort backend with
    | intstr.Int _ => True
    | intstr.String name => noDot name
    end.

(** The port that a subset lists under the name, [0] when it lists none. *)
Definition namedPort (portName : string) (subset : corev1.EndpointSubset.t) : Z :=
  match find (fun p => bool_decide (portName = corev1.EndpointPort.Name p))
             (corev1.EndpointSubset.Ports subset) with
  | Some p => corev1.EndpointPort.Port p
  | None => 0
  end.

(** The scheme of the targets of a port. *)
Definition scheme (portName : string) (port : Z) : string :=
  if bool_decide (port = 443) || strings.HasPrefix portName "https" then "https" else "http".

(** One target for each address of the subset, on the given port. *)
Definition subsetTargets (portName : string) (subset : corev1.EndpointSubset.t) (port : Z)
    : list config.Server.t :=
  map (fun addr => serverURL (scheme portName port) (corev1.EndpointAddress.IP addr) port)
      (corev1.EndpointSubset.Addresses subset).

(** The URL starts with [http://] or with [https://]. *)
Definition httpURL (server : config.Server.t) : Prop :=
  strings.HasPrefix (config.Server.URL server) "http://" = true
  ∨ strings.HasPrefix (config.Server.URL server) "https://" = true.

(** The same cluster with other endpoints. *)
Definition withEndpoints (client : Client)
    (getEndpoints : string -> string -> fetched corev1.Endpoints.t) : Client :=
  mkClient (GetIngresses client) (GetService client) getEndpoints (GetSecret client)
           (UpdateIngressStatus client).

(** How often the byte occurs in the string. *)
Fixpoint occurrences (c : ascii) (s : string) : nat :=
  match s with
  | EmptyString => 0%nat
  | String d rest => ((if Ascii.eqb d c then 1 else 0) + occurrences c rest)%nat
  end.

(** The status writes sent to the cluster: namespace, name, IP, hostname. *)
Definition statusWrites (evs : list event) : list (string * string * string * string) :=
  omap (fun e => match e with
                 | StatusWrite namespace name ip hostname =>
                     Some (namespace, name, ip, hostname)
                 | _ => None
                 end) evs.

(** The path is skipped by the loop over the paths: its backend does not
    resolve, or the path does not pass the quoting check. *)
Definition skippedPath (client : Client) (namespace : string)
    (pa : v1beta1.HTTPIngressPath.t) : Prop :=
  (∃ err, loadService client namespace (v1beta1.HTTPIngressPath.Backend pa) = inl err)
  ∨ (∃ err, checkStringQuoteValidity (v1beta1.HTTPIngressPath.Path pa) = Some err).

(** Two stages of a translation with the same routers, services and cache. *)
Definition sameOutput (st1 st2 : translation) : Prop :=
  routers st1 = routers st2 ∧ services st1 = services st2
  ∧ tlsConfigs st1 = tlsConfigs st2.

(** The secret of the fetch resolves to a certificate. *)
Definition resolves (client : Client) (fetch : string * string) : bool :=
  match resolveSecret client fetch.1 fetch.2 with
  | inr _ => true
  | inl _ => false
  end.

(** ** The class filter *)

Lemma shouldProcessIngress_true (ingressClass annotation : string) :
  shouldProcessIngress ingressClass annotation = true ↔
  annotation = ingressClass
  ∨ (ingressClass = "" ∧ annotation = traefikDefaultIngressClass).
Proof.
  unfold shouldProcessIngress.
  rewrite orb_true_iff, andb_true_iff, !bool_decide_eq_true.
  split.
  - intros [-> | [Hlen ->]]; [by left | right].
    split; [| done]. by destruct ingressClass.
  - intros [-> | [-> ->]]; [by left | by right].
Qed.

Lemma loadIngress_skipped (p : Provider) (client : Client) (st : translation)
    (ingress : v1beta1.Ingress.t) :
  shouldProcessIngress (IngressClass p) (classAnnotation ingress) = false →
  loadIngress p client st ingress = Returned st.
Proof. intros H. unfold loadIngress. by rewrite H. Qed.

(** C3, as the code has it: an ingress is processed if and only if its class
    annotation equals the configured class, or no class is configured and the
    annotation is the default class name [traefik]; an ingress that is not
    processed leaves the translation as it was. With no class configured, an
    ingress without a class annotation is therefore processed, since the
    absent annotation reads as the empty string and equals the empty class. *)
Theorem class_filter_processes_matching_class
    (p : Provider) (client : Client) (st : translation) (ingress : v1beta1.Ingress.t) :
  (shouldProcessIngress (IngressClass p) (classAnnotation ingress) = true ↔
     classAnnotation ingress = IngressClass p
     ∨ (IngressClass p = "" ∧ classAnnotation ingress = traefikDefaultIngressClass))
  ∧ (shouldProcessIngress (IngressClass p) (classAnnotation ingress) = false →
     loadIngress p client st ingress = Returned st)
  ∧ (IngressClass p = "" →
     v1beta1.Ingress.Annotations ingress !! annotationKubernetesIngressClass = None →
     shouldProcessIngress (IngressClass p) (classAnnotation ingress) = true).
Proof.
  split; [apply shouldProcessIngress_true |].
  split; [apply loadIngress_skipped |].
  intros Hclass Habsent. apply shouldProcessIngress_true. left.
  unfold classAnnotation. by rewrite Habsent, Hclass.
Qed.

(** C3 as the specification states it fails: with no class configured, the ingress
    [site], which has no class annotation, passes the filter and its router
    is in the configuration. *)
Lemma absent_class_annotation_is_processed :
  IngressClass Examples.provider = ""
  ∧ v1beta1.Ingress.Annotations Examples.site !! annotationKubernetesIngressClass = None
  ∧ shouldProcessIngress (IngressClass Examples.provider)
      (classAnnotation Examples.site) = true
  ∧ loadConfigurationFromIngresses Examples.provider
      (Examples.cluster [Examples.site] Examples.webEndpoints)
    = Returned (Examples.siteConf, [StatusReconcile "default" "site"]).
Proof. repeat split; vm_compute; reflexivity. Qed.

(** ** The watch loop publishes on change only *)

Lemma publish_same (s : loopState) (conf : config.Configuration.t) :
  lastConfiguration s = Some conf → publish s conf = s.
Proof. intros H. unfold publish. by rewrite decide_True. Qed.

Lemma publish_changed (s : loopState) (conf : config.Configuration.t) :
  lastConfiguration s ≠ Some conf →
  publish s conf = mkLoop (Some conf) (sent s ++ [config.Message.mk "kubernetes" conf]).
Proof. intros H. unfold publish. by rewrite decide_False. Qed.

Lemma publish_last (s : loopState) (conf : config.Configuration.t) :
  lastConfiguration (publish s conf) = Some conf.
Proof. unfold publish. by case_decide. Qed.

Lemma onEvent_returned (p : Provider) (s : loopState) (client : Client)
    (conf : config.Configuration.t) (evs : list event) :
  loadConfigurationFromIngresses p client = Returned (conf, evs) →
  onEvent p s client = Returned (publish s conf).
Proof. intros H. unfold onEvent. by rewrite H. Qed.

(** C1: let two consecutive notifications be handled, the translations
    computed for them being [conf1] and [conf2]. After the first, the last
    published configuration is [conf1]. If [conf2] equals it, the second
    notification sends nothing and leaves the last published configuration
    as it is; otherwise the last published configuration becomes [conf2] and
    exactly one message, carrying [conf2], is sent. So the two notifications
    together never send the same configuration twice. *)
Theorem consecutive_events_publish_on_change
    (p : Provider) (s : loopState) (client1 client2 : Client)
    (conf1 conf2 : config.Configuration.t) (evs1 evs2 : list event) :
  loadConfigurationFromIngresses p client1 = Returned (conf1, evs1) →
  loadConfigurationFromIngresses p client2 = Returned (conf2, evs2) →
  ∃ s1 s2,
    onEvent p s client1 = Returned s1
    ∧ onEvent p s1 client2 = Returned s2
    ∧ operation p [client1; client2] s = (s2, true)
    ∧ lastConfiguration s1 = Some conf1
    ∧ (conf2 = conf1 → s2 = s1)
    ∧ (conf2 ≠ conf1 →
       s2 = mkLoop (Some conf2) (sent s1 ++ [config.Message.mk "kubernetes" conf2]))
    ∧ (conf2 = conf1 →
       sent s2 = sent s ∨ sent s2 = sent s ++ [config.Message.mk "kubernetes" conf1]).
Proof.
  intros H1 H2.
  exists (publish s conf1), (publish (publish s conf1) conf2).
  pose proof (onEvent_returned p s client1 conf1 evs1 H1) as E1.
  pose proof (onEvent_returned p (publish s conf1) client2 conf2 evs2 H2) as E2.
  split; [done |]. split; [done |].
  split; [cbn [operation]; by rewrite E1, E2 |].
  split; [apply publish_last |].
  split; [| split].
  - intros ->. apply publish_same, publish_last.
  - intros Hne. apply publish_changed. rewrite publish_last. congruence.
  - intros ->. rewrite (publish_same (publish s conf1)) by apply publish_last.
    unfold publish. case_decide; [by left | by right].
Qed.

Lemma consecutive_events_publish_on_change_witness :
  ∃ s1 s2,
    onEvent Examples.provider (mkLoop None [])
      (Examples.cluster [Examples.site] Examples.webEndpoints) = Returned s1
    ∧ onEvent Examples.provider s1
        (Examples.cluster [Examples.site] Examples.webEndpoints) = Returned s2
    ∧ operation Examples.provider
        [Examples.cluster [Examples.site] Examples.webEndpoints;
         Examples.cluster [Examples.site] Examples.webEndpoints] (mkLoop None [])
      = (s2, true)
    ∧ lastConfiguration s1 = Some Examples.siteConf
    ∧ (Examples.siteConf = Examples.siteConf → s2 = s1)
    ∧ (Examples.siteConf ≠ Examples.siteConf →
       s2 = mkLoop (Some Examples.siteConf)
              (sent s1 ++ [config.Message.mk "kubernetes" Examples.siteConf]))
    ∧ (Examples.siteConf = Examples.siteConf →
       sent s2 = sent (mkLoop None [])
       ∨ sent s2 = sent (mkLoop None [])
                   ++ [config.Message.mk "kubernetes" Examples.siteConf]).
Proof.
  apply (consecutive_events_publish_on_change Examples.provider (mkLoop None [])
           (Examples.cluster [Examples.site] Examples.webEndpoints)
           (Examples.cluster [Examples.site] Examples.webEndpoints)
           Examples.siteConf Examples.siteConf
           [StatusReconcile "default" "site"] [StatusReconcile "default" "site"]);
    vm_compute; reflexivity.
Defined.

(** The messages sent by a whole run of the loop never repeat the
    configuration sent just before. *)
Lemma operation_last_sent (p : Provider) (eventsChan : list Client) (s : loopState) :
  (∀ m, last (sent s) = Some m →
        lastConfiguration s = Some (config.Message.Configuration m)) →
  ∀ m, last (sent (operation p eventsChan s).1) = Some m →
       lastConfiguration (operation p eventsChan s).1
       = Some (config.Message.Configuration m).
Proof.
  revert s. induction eventsChan as [| client rest IH]; intros s Hs; [done |].
  cbn [operation]. unfold onEvent.
  destruct (loadConfigurationFromIngresses p client) as [[conf evs] |]; [| done].
  apply IH. unfold publish. case_decide; [done |].
  cbn. intros m. rewrite last_snoc. by intros [= <-].
Qed.

(** ** The service resolver over several subsets *)

(** A subset without a port of the wanted name resolves with the port left
    by the subsets before it, when there is one. *)
Lemma loadSubsets_carries_port (portName : string) (subset : corev1.EndpointSubset.t)
    (rest : list corev1.EndpointSubset.t) (port : Z) (servers : list config.Server.t) :
  find (fun p => bool_decide (portName = corev1.EndpointPort.Name p))
       (corev1.EndpointSubset.Ports subset) = None →
  port ≠ 0 →
  loadSubsets portName (subset :: rest) port servers
  = loadSubsets portName rest port
      (servers ++ map (fun addr =>
                         serverURL (if bool_decide (port = 443)
                                       || strings.HasPrefix portName "https"
                                    then "https" else "http")
                                   (corev1.EndpointAddress.IP addr) port)
                      (corev1.EndpointSubset.Addresses subset)).
Proof.
  intros Hfind Hport. cbn [loadSubsets]. rewrite Hfind.
  by rewrite bool_decide_eq_false_2.
Qed.

(** The first subset has nothing to fall back on: the same lookup fails. *)
Lemma loadSubsets_first_without_port (portName : string) (subset : corev1.EndpointSubset.t)
    (rest : list corev1.EndpointSubset.t) :
  find (fun p => bool_decide (portName = corev1.EndpointPort.Name p))
       (corev1.EndpointSubset.Ports subset) = None →
  loadSubsets portName (subset :: rest) 0 [] = inl "cannot define a port".
Proof. intros Hfind. cbn [loadSubsets]. by rewrite Hfind. Qed.

(** C4 on the code: the backend selects the port [http] of the service
    [web]; the first subset of its endpoints names [http] = 8080, the second
    subset has no port of that name. The
    second subset's address is emitted with the first subset's port 8080
    instead of failing, while the same two subsets in the other order fail
    with the error [cannot define a port]. *)
Theorem loadService_reuses_port_of_earlier_subset :
  loadService (Examples.cluster [] Examples.staleEndpoints) "default"
    (Examples.backend "web" (intstr.Int 80))
  = inr (config.Service.mk [config.Server.mk "http://10.0.0.1:8080";
                            config.Server.mk "http://10.0.0.2:8080"] true)
  ∧ loadService
      (Examples.cluster []
         (corev1.Endpoints.mk (rev (corev1.Endpoints.Subsets Examples.staleEndpoints))))
      "default" (Examples.backend "web" (intstr.Int 80))
    = inl "cannot define a port".
Proof. split; vm_compute; reflexivity. Qed.

(** ** Panics of the translation *)

Lemma loadRule_without_http (p : Provider) (client : Client) (ingress : v1beta1.Ingress.t)
    (st : translation) (host : string) :
  checkStringQuoteValidity host = None →
  loadRule p client ingress st (v1beta1.IngressRule.mk host None) = Panic.
Proof. intros H. unfold loadRule. cbn. by rewrite H. Qed.

(** C9 on the code: the ingress [host-only] has one rule, with the host
    [example.com] and no HTTP section. The translation of a snapshot that
    holds it panics and returns no configuration, also when other ingresses
    stand before it; the watch loop leaves on that panic without having sent
    anything. *)
Theorem loadConfigurationFromIngresses_panics_without_http :
  loadConfigurationFromIngresses Examples.provider
    (Examples.cluster [Examples.hostOnly] Examples.webEndpoints) = Panic
  ∧ loadConfigurationFromIngresses Examples.provider
      (Examples.cluster [Examples.site; Examples.hostOnly] Examples.webEndpoints) = Panic
  ∧ operation Examples.provider
      [Examples.cluster [Examples.site; Examples.hostOnly] Examples.webEndpoints]
      (mkLoop None [])
    = (mkLoop None [], false).
Proof. repeat split; vm_compute; reflexivity. Qed.

(** ** Invocations of the status reconciler *)

Lemma reconciliations_app (evs1 evs2 : list event) :
  reconciliations (evs1 ++ evs2) = reconciliations evs1 ++ reconciliations evs2.
Proof. apply omap_app. Qed.

Lemma loadPath_reconciliations (client : Client) (namespace host : string)
    (st : translation) (pa : v1beta1.HTTPIngressPath.t) :
  reconciliations (events (loadPath client namespace host st pa))
  = reconciliations (events st).
Proof.
  unfold loadPath. repeat case_match; cbn; rewrite ?reconciliations_app; cbn;
    by rewrite ?app_nil_r.
Qed.

Lemma loadPaths_reconciliations (client : Client) (namespace host : string)
    (paths : list v1beta1.HTTPIngressPath.t) (st : translation) :
  reconciliations (events (fold_left (loadPath client namespace host) paths st))
  = reconciliations (events st).
Proof.
  revert st. induction paths as [| pa paths IH]; intros st; [done |].
  cbn [fold_left]. rewrite IH. apply loadPath_reconciliations.
Qed.

Lemma updateIngressStatus_reconciliations (p : Provider) (i : v1beta1.Ingress.t)
    (client : Client) (evs : list event) (err : option error) :
  updateIngressStatus p i client = Returned (evs, err) → reconciliations evs = [].
Proof.
  unfold updateIngressStatus. intros H.
  repeat case_match; simplify_eq; done.
Qed.

Lemma loadRule_reconciliations (p : Provider) (client : Client)
    (ingress : v1beta1.Ingress.t) (st st' : translation) (rule : v1beta1.IngressRule.t) :
  loadRule p client ingress st rule = Returned st' →
  reconciliations (events st')
  = reconciliations (events st)
    ++ (if hostOk rule
        then [(v1beta1.Ingress.Namespace ingress, v1beta1.Ingress.Name ingress)]
        else []).
Proof.
  unfold loadRule, hostOk. intros H.
  destruct (checkStringQuoteValidity (v1beta1.IngressRule.Host rule)) as [e |] eqn:Hhost.
  - simplify_eq. cbn. rewrite reconciliations_app. done.
  - destruct (v1beta1.IngressRule.HTTP rule) as [paths |]; [| done].
    destruct (updateIngressStatus p ingress client) as [[evs err] |] eqn:Hstatus; [| done].
    apply updateIngressStatus_reconciliations in Hstatus.
    destruct err; simplify_eq; cbn;
      rewrite !reconciliations_app, ?Hstatus, loadPaths_reconciliations; cbn;
      by rewrite ?app_nil_r.
Qed.

Lemma loadRules_reconciliations (p : Provider) (client : Client)
    (ingress : v1beta1.Ingress.t) (rules : list v1beta1.IngressRule.t)
    (st st' : translation) :
  loadRules p client ingress rules st = Returned st' →
  reconciliations (events st')
  = reconciliations (events st)
    ++ replicate (length (List.filter hostOk rules))
         (v1beta1.Ingress.Namespace ingress, v1beta1.Ingress.Name ingress).
Proof.
  revert st. induction rules as [| rule rules IH]; intros st H; cbn in H.
  - simplify_eq. cbn. by rewrite app_nil_r.
  - destruct (loadRule p client ingress st rule) as [st1 |] eqn:Hrule; [| done].
    rewrite (IH _ H), (loadRule_reconciliations _ _ _ _ _ _ Hrule).
    cbn [List.filter]. destruct (hostOk rule); cbn; by rewrite <- ?app_assoc.
Qed.

Lemma getTLSSections_reconciliations (client : Client) (namespace : string)
    (sections : list v1beta1.IngressTLS.t) (m : gmap string tls.CertAndStores.t)
    (evs : list event) :
  reconciliations (tlsEvents (getTLSSections client namespace sections m evs))
  = reconciliations evs.
Proof.
  revert m evs. induction sections as [| t rest IH]; intros m evs; [done |].
  cbn [getTLSSections].
  repeat case_match; rewrite ?IH; cbn; rewrite ?reconciliations_app; cbn;
    by rewrite ?app_nil_r.
Qed.

Lemma loadDefaultBackend_reconciliations (client : Client) (ingress : v1beta1.Ingress.t)
    (st st' : translation) :
  loadDefaultBackend client ingress st = inl st'
  ∨ loadDefaultBackend client ingress st = inr st' →
  reconciliations (events st') = reconciliations (events st).
Proof.
  unfold loadDefaultBackend.
  intros [H | H]; repeat case_match; simplify_eq; cbn;
    rewrite ?reconciliations_app; cbn; by rewrite ?app_nil_r.
Qed.

Lemma loadDefaultBackend_with_rules (client : Client) (ingress : v1beta1.Ingress.t)
    (st : translation) :
  v1beta1.Ingress.Rules ingress ≠ [] → loadDefaultBackend client ingress st = inr st.
Proof.
  intros H. unfold loadDefaultBackend.
  rewrite bool_decide_eq_false_2; [done |].
  by destruct (v1beta1.Ingress.Rules ingress).
Qed.

Lemma loadIngress_reconciliations (p : Provider) (client : Client)
    (ingress : v1beta1.Ingress.t) (st st' : translation) :
  shouldProcessIngress (IngressClass p) (classAnnotation ingress) = true →
  loadIngress p client st ingress = Returned st' →
  reconciliations (events st')
  = reconciliations (events st)
    ++ replicate (length (List.filter hostOk (v1beta1.Ingress.Rules ingress)))
         (v1beta1.Ingress.Namespace ingress, v1beta1.Ingress.Name ingress).
Proof.
  intros Hclass. unfold loadIngress. rewrite Hclass. cbn [negb].
  set (r := getTLS ingress client (tlsConfigs st)).
  set (st1 := mkTranslation _ _ _ _).
  set (st2 := match tlsError r with Some _ => _ | None => _ end).
  assert (reconciliations (events st2) = reconciliations (events st)) as Hst2.
  { subst st2 st1 r. unfold getTLS.
    destruct (tlsError _); cbn; rewrite ?reconciliations_app;
      rewrite (getTLSSections_reconciliations _ _ _ _ []); cbn;
      by rewrite ?app_nil_r. }
  destruct (loadDefaultBackend client ingress st2) as [st3 | st3] eqn:Hdef.
  - intros [= <-].
    rewrite (loadDefaultBackend_reconciliations _ _ _ _ (or_introl Hdef)), Hst2.
    destruct (v1beta1.Ingress.Rules ingress) as [| rule rules] eqn:Hrules.
    + cbn. by rewrite app_nil_r.
    + rewrite loadDefaultBackend_with_rules in Hdef by (by rewrite Hrules). done.
  - intros H. rewrite (loadRules_reconciliations _ _ _ _ _ _ H).
    by rewrite (loadDefaultBackend_reconciliations _ _ _ _ (or_intror Hdef)), Hst2.
Qed.

Lemma loadRule_reconciles_after_paths (p : Provider) (client : Client)
    (ingress : v1beta1.Ingress.t) (st : translation) (rule : v1beta1.IngressRule.t)
    (paths : list v1beta1.HTTPIngressPath.t) (evs : list event) (err : option error) :
  hostOk rule = true →
  v1beta1.IngressRule.HTTP rule = Some paths →
  updateIngressStatus p ingress client = Returned (evs, err) →
  let st1 := fold_left (loadPath client (v1beta1.Ingress.Namespace ingress)
                          (v1beta1.IngressRule.Host rule)) paths st in
  loadRule p client ingress st rule
  = Returned (mkTranslation (routers st1) (services st1) (tlsConfigs st1)
      (events st1
       ++ StatusReconcile (v1beta1.Ingress.Namespace ingress) (v1beta1.Ingress.Name ingress)
          :: evs
       ++ match err with
          | Some e => [LogError ("Error while updating ingress status: " +:+ e)]
          | None => []
          end)).
Proof.
  unfold hostOk. rewrite bool_decide_eq_true. intros Hhost Hhttp Hstatus.
  unfold loadRule. rewrite Hhost, Hhttp, Hstatus.
  destruct err; unfold emit; cbn; by rewrite <- ?app_assoc, ?app_nil_r.
Qed.

Lemma loadRules_returns (p : Provider) (client : Client) (ingress : v1beta1.Ingress.t)
    (rules : list v1beta1.IngressRule.t) (st : translation) :
  Forall (fun rule => hostOk rule = true → is_Some (v1beta1.IngressRule.HTTP rule)) rules →
  updateIngressStatus p ingress client ≠ Panic →
  ∃ st', loadRules p client ingress rules st = Returned st'.
Proof.
  intros Hrules Hstatus. revert st.
  induction Hrules as [| rule rules Hrule _ IH]; intros st; cbn; [by eexists |].
  destruct (hostOk rule) eqn:Hhost.
  - destruct (Hrule eq_refl) as [paths Hhttp].
    destruct (updateIngressStatus p ingress client) as [[evs err] |] eqn:E; [| done].
    rewrite (loadRule_reconciles_after_paths _ _ _ _ _ _ _ _ Hhost Hhttp E). apply IH.
  - unfold hostOk in Hhost. apply bool_decide_eq_false in Hhost.
    unfold loadRule.
    destruct (checkStringQuoteValidity _); [apply IH | done].
Qed.

Lemma loadIngress_returns (p : Provider) (client : Client) (st : translation)
    (ingress : v1beta1.Ingress.t) :
  Forall (fun rule => hostOk rule = true → is_Some (v1beta1.IngressRule.HTTP rule))
         (v1beta1.Ingress.Rules ingress) →
  updateIngressStatus p ingress client ≠ Panic →
  ∃ st', loadIngress p client st ingress = Returned st'.
Proof.
  intros Hrules Hstatus. unfold loadIngress.
  destruct (negb _); [by eexists |].
  destruct (loadDefaultBackend _ _ _); [by eexists |].
  by apply loadRules_returns.
Qed.

(** C2, as the code has it: on an ingress that passes the class filter, the
    translator invokes the status reconciler once for each rule whose host
    passes the quoting check, right after the paths of that rule have been
    processed, and not at all for an ingress without rules, the default
    backend case included. An error returned by the reconciler is logged
    behind the invocation and the translation of the ingress goes on: it
    returns whenever every such rule has an HTTP section and the reconciler
    itself returns. *)
Theorem status_reconciled_once_per_rule
    (p : Provider) (client : Client) (st : translation) (ingress : v1beta1.Ingress.t) :
  shouldProcessIngress (IngressClass p) (classAnnotation ingress) = true →
  (∀ st', loadIngress p client st ingress = Returned st' →
     reconciliations (events st')
     = reconciliations (events st)
       ++ replicate (length (List.filter hostOk (v1beta1.Ingress.Rules ingress)))
            (v1beta1.Ingress.Namespace ingress, v1beta1.Ingress.Name ingress))
  ∧ (∀ st0 rule paths evs err,
       hostOk rule = true →
       v1beta1.IngressRule.HTTP rule = Some paths →
       updateIngressStatus p ingress client = Returned (evs, err) →
       ∃ st',
         loadRule p client ingress st0 rule = Returned st'
         ∧ events st'
           = events (fold_left (loadPath client (v1beta1.Ingress.Namespace ingress)
                                  (v1beta1.IngressRule.Host rule)) paths st0)
             ++ StatusReconcile (v1beta1.Ingress.Namespace ingress)
                                (v1beta1.Ingress.Name ingress)
                :: evs
             ++ match err with
                | Some e => [LogError ("Error while updating ingress status: " +:+ e)]
                | None => []
                end)
  ∧ (Forall (fun rule => hostOk rule = true → is_Some (v1beta1.IngressRule.HTTP rule))
            (v1beta1.Ingress.Rules ingress) →
     updateIngressStatus p ingress client ≠ Panic →
     ∃ st', loadIngress p client st ingress = Returned st').
Proof.
  intros Hclass. split; [| split].
  - intros st'. by apply loadIngress_reconciliations.
  - intros st0 rule paths evs err Hhost Hhttp Hstatus. eexists. split.
    + by apply loadRule_reconciles_after_paths.
    + done.
  - apply loadIngress_returns.
Qed.

Lemma status_reconciled_once_per_rule_witness :
  shouldProcessIngress (IngressClass Examples.publishing)
    (classAnnotation Examples.twoRules) = true
  ∧ ∀ st',
      loadIngress Examples.publishing
        (Examples.cluster [Examples.twoRules] Examples.webEndpoints)
        emptyTranslation Examples.twoRules = Returned st' →
      reconciliations (events st')
      = reconciliations (events emptyTranslation)
        ++ replicate (length (List.filter hostOk (v1beta1.Ingress.Rules Examples.twoRules)))
             (v1beta1.Ingress.Namespace Examples.twoRules,
              v1beta1.Ingress.Name Examples.twoRules).
Proof.
  split; [vm_compute; reflexivity |].
  apply (status_reconciled_once_per_rule Examples.publishing
           (Examples.cluster [Examples.twoRules] Examples.webEndpoints)
           emptyTranslation Examples.twoRules).
  vm_compute; reflexivity.
Defined.

(** C2 as the specification states it fails: the ingress [two] has two rules and the
    reconciler is invoked twice on it, each time writing the status; the
    ingress [default-one] has no rule, its fallback backend is registered as
    the default backend, and the reconciler is not invoked on it. *)
Lemma status_reconciled_twice_or_never :
  (∃ conf evs,
     loadConfigurationFromIngresses Examples.publishing
       (Examples.cluster [Examples.twoRules] Examples.webEndpoints) = Returned (conf, evs)
     ∧ evs = [StatusReconcile "default" "two"; StatusWrite "default" "two" "192.0.2.1" "";
              StatusReconcile "default" "two"; StatusWrite "default" "two" "192.0.2.1" ""])
  ∧ (∃ conf evs,
       loadConfigurationFromIngresses Examples.publishing
         (Examples.cluster [Examples.defaultOne] Examples.webEndpoints)
       = Returned (conf, evs)
       ∧ config.Configuration.Routers conf !! "/" = Some defaultRouter
       ∧ evs = []).
Proof. split; do 2 eexists; repeat split; vm_compute; reflexivity. Qed.

(** ** The TLS aggregator, section by section *)

Lemma getTLSSections_cons (client : Client) (namespace : string) (t : v1beta1.IngressTLS.t)
    (rest : list v1beta1.IngressTLS.t) (m : gmap string tls.CertAndStores.t)
    (evs : list event) :
  getTLSSections client namespace (t :: rest) m evs
  = let secretName := v1beta1.IngressTLS.SecretName t in
    if bool_decide (secretName = "") then
      getTLSSections client namespace rest m
        (evs ++ [LogDebug "Skipping TLS sub-section: No secret name provided"])
    else
      match m !! (namespace +:+ "/" +:+ secretName) with
      | Some _ => getTLSSections client namespace rest m evs
      | None =>
          match resolveSecret client namespace secretName with
          | inl err => mkTLS m (evs ++ [SecretFetch namespace secretName]) (Some err)
          | inr cert =>
              getTLSSections client namespace rest
                (<[namespace +:+ "/" +:+ secretName := cert]> m)
                (evs ++ [SecretFetch namespace secretName])
          end
      end.
Proof.
  cbn [getTLSSections]. unfold resolveSecret.
  repeat case_match; simplify_eq; done.
Qed.

(** The effects so far are only extended. *)
Lemma getTLSSections_events (client : Client) (namespace : string)
    (sections : list v1beta1.IngressTLS.t) (m : gmap string tls.CertAndStores.t)
    (evs : list event) :
  getTLSSections client namespace sections m evs
  = mkTLS (tlsCache (getTLSSections client namespace sections m []))
          (evs ++ tlsEvents (getTLSSections client namespace sections m []))
          (tlsError (getTLSSections client namespace sections m [])).
Proof.
  revert m evs. induction sections as [| t rest IH]; intros m evs.
  - cbn. by rewrite app_nil_r.
  - rewrite !getTLSSections_cons. cbn zeta.
    repeat case_match; cbn; try done.
    + rewrite (IH m (evs ++ _)), (IH m [_]). cbn. by rewrite <- app_assoc.
    + rewrite (IH _ (evs ++ _)), (IH _ [_]). cbn. by rewrite <- app_assoc.
Qed.

(** The sections are handled from left to right, and an error ends the
    loop. *)
Lemma getTLSSections_app (client : Client) (namespace : string)
    (pre post : list v1beta1.IngressTLS.t) (m : gmap string tls.CertAndStores.t)
    (evs : list event) :
  getTLSSections client namespace (pre ++ post) m evs
  = let r := getTLSSections client namespace pre m evs in
    match tlsError r with
    | Some _ => r
    | None => getTLSSections client namespace post (tlsCache r) (tlsEvents r)
    end.
Proof.
  revert m evs. induction pre as [| t pre IH]; intros m evs; [done |].
  rewrite <- app_comm_cons, !getTLSSections_cons. cbn zeta.
  repeat case_match; simplify_eq; rewrite ?IH; cbn zeta; try done;
    by repeat case_match.
Qed.

(** ** What the steps of the translation leave alone *)

Lemma extends_refl (st : translation) : extends st st.
Proof. by split. Qed.

Lemma extends_trans (st1 st2 st3 : translation) :
  extends st1 st2 → extends st2 st3 → extends st1 st3.
Proof. intros [H1 P1] [H2 P2]. split; [congruence | by etrans]. Qed.

Lemma extends_emit (evs : list event) (st : translation) : extends st (emit evs st).
Proof. split; [done |]. by apply prefix_app_r. Qed.

Lemma extends_register (routerName : string) (router : config.Router.t)
    (serviceName : string) (service : config.Service.t) (st : translation) :
  extends st (register routerName router serviceName service st).
Proof. by split. Qed.

Lemma loadPath_extends (client : Client) (namespace host : string) (st : translation)
    (pa : v1beta1.HTTPIngressPath.t) :
  extends st (loadPath client namespace host st pa).
Proof.
  unfold loadPath.
  repeat case_match; auto using extends_emit, extends_register.
Qed.

Lemma loadPaths_extends (client : Client) (namespace host : string)
    (paths : list v1beta1.HTTPIngressPath.t) (st : translation) :
  extends st (fold_left (loadPath client namespace host) paths st).
Proof.
  revert st. induction paths as [| pa paths IH]; intros st; [apply extends_refl |].
  cbn [fold_left]. eapply extends_trans; [apply loadPath_extends | apply IH].
Qed.

Lemma loadRule_extends (p : Provider) (client : Client) (ingress : v1beta1.Ingress.t)
    (st st' : translation) (rule : v1beta1.IngressRule.t) :
  loadRule p client ingress st rule = Returned st' → extends st st'.
Proof.
  unfold loadRule. intros H.
  repeat case_match; simplify_eq; auto using extends_emit;
    (eapply extends_trans; [apply loadPaths_extends |]);
    (eapply extends_trans; [apply extends_emit |]); apply extends_emit.
Qed.

Lemma loadRules_extends (p : Provider) (client : Client) (ingress : v1beta1.Ingress.t)
    (rules : list v1beta1.IngressRule.t) (st st' : translation) :
  loadRules p client ingress rules st = Returned st' → extends st st'.
Proof.
  revert st. induction rules as [| rule rules IH]; intros st H; cbn in H.
  - simplify_eq. apply extends_refl.
  - destruct (loadRule p client ingress st rule) as [st1 |] eqn:Hrule; [| done].
    eapply extends_trans; [by eapply loadRule_extends | by apply IH].
Qed.

Lemma loadDefaultBackend_extends (client : Client) (ingress : v1beta1.Ingress.t)
    (st st' : translation) :
  loadDefaultBackend client ingress st = inl st'
  ∨ loadDefaultBackend client ingress st = inr st' →
  extends st st'.
Proof.
  unfold loadDefaultBackend.
  intros [H | H]; repeat case_match; simplify_eq;
    auto using extends_emit, extends_register, extends_refl.
Qed.

(** After [getTLS], the turn of an ingress writes no more into the cache,
    and keeps what was logged. *)
Lemma loadIngress_tls (p : Provider) (client : Client) (st st' : translation)
    (ingress : v1beta1.Ingress.t) :
  shouldProcessIngress (IngressClass p) (classAnnotation ingress) = true →
  loadIngress p client st ingress = Returned st' →
  let r := getTLS ingress client (tlsConfigs st) in
  tlsConfigs st' = tlsCache r
  ∧ events st ++ tlsEvents r
           ++ match tlsError r with
              | Some err => [LogError ("Error configuring TLS: " +:+ err)]
              | None => []
              end
    `prefix_of` events st'.
Proof.
  intros Hclass. unfold loadIngress. rewrite Hclass. cbn [negb].
  set (r := getTLS ingress client (tlsConfigs st)).
  set (st1 := mkTranslation _ _ _ _).
  set (st2 := match tlsError r with Some _ => _ | None => _ end).
  assert (tlsConfigs st2 = tlsCache r
          ∧ events st2 = events st ++ tlsEvents r
              ++ match tlsError r with
                 | Some err => [LogError ("Error configuring TLS: " +:+ err)]
                 | None => []
                 end) as [Hc He].
  { subst st2 st1. destruct (tlsError r); cbn; rewrite ?app_nil_r, <- ?app_assoc; done. }
  intros H. cbn zeta. rewrite <- Hc, <- He.
  destruct (loadDefaultBackend client ingress st2) as [st3 | st3] eqn:Hdef.
  - simplify_eq. apply (loadDefaultBackend_extends client ingress). by left.
  - apply (extends_trans _ st3).
    + apply (loadDefaultBackend_extends client ingress). by right.
    + by eapply loadRules_extends.
Qed.

(** ** Routers and services do not depend on the TLS sections *)

Lemma sameButTLS_fields (i1 i2 : v1beta1.Ingress.t) :
  sameButTLS i1 i2 →
  v1beta1.Ingress.Name i1 = v1beta1.Ingress.Name i2
  ∧ v1beta1.Ingress.Namespace i1 = v1beta1.Ingress.Namespace i2
  ∧ v1beta1.Ingress.Annotations i1 = v1beta1.Ingress.Annotations i2
  ∧ v1beta1.Ingress.Backend i1 = v1beta1.Ingress.Backend i2
  ∧ v1beta1.Ingress.Rules i1 = v1beta1.Ingress.Rules i2.
Proof. unfold sameButTLS, withTLS. intros [= -> -> -> -> ->]. done. Qed.

Lemma sameButTLS_withTLS (ingress : v1beta1.Ingress.t)
    (sections : list v1beta1.IngressTLS.t) :
  sameButTLS ingress (withTLS ingress sections).
Proof. done. Qed.

Lemma updateIngressStatus_names (p : Provider) (i1 i2 : v1beta1.Ingress.t)
    (client : Client) :
  v1beta1.Ingress.Name i1 = v1beta1.Ingress.Name i2 →
  v1beta1.Ingress.Namespace i1 = v1beta1.Ingress.Namespace i2 →
  updateIngressStatus p i1 client = updateIngressStatus p i2 client.
Proof. intros Hname Hns. unfold updateIngressStatus. by rewrite Hname, Hns. Qed.

Lemma loadPath_http (client : Client) (namespace host : string)
    (st1 st2 : translation) (pa : v1beta1.HTTPIngressPath.t) :
  routers st1 = routers st2 → services st1 = services st2 →
  routers (loadPath client namespace host st1 pa)
  = routers (loadPath client namespace host st2 pa)
  ∧ services (loadPath client namespace host st1 pa)
    = services (loadPath client namespace host st2 pa).
Proof.
  intros Hr Hs. unfold loadPath. repeat case_match; cbn; by rewrite ?Hr, ?Hs.
Qed.

Lemma loadPaths_http (client : Client) (namespace host : string)
    (paths : list v1beta1.HTTPIngressPath.t) (st1 st2 : translation) :
  routers st1 = routers st2 → services st1 = services st2 →
  routers (fold_left (loadPath client namespace host) paths st1)
  = routers (fold_left (loadPath client namespace host) paths st2)
  ∧ services (fold_left (loadPath client namespace host) paths st1)
    = services (fold_left (loadPath client namespace host) paths st2).
Proof.
  revert st1 st2. induction paths as [| pa paths IH]; intros st1 st2 Hr Hs; [done |].
  cbn [fold_left]. destruct (loadPath_http client namespace host st1 st2 pa Hr Hs).
  by apply IH.
Qed.

Lemma loadRule_http (p : Provider) (client : Client) (i1 i2 : v1beta1.Ingress.t)
    (st1 st2 : translation) (rule : v1beta1.IngressRule.t) :
  v1beta1.Ingress.Name i1 = v1beta1.Ingress.Name i2 →
  v1beta1.Ingress.Namespace i1 = v1beta1.Ingress.Namespace i2 →
  routers st1 = routers st2 → services st1 = services st2 →
  sameHTTP (loadRule p client i1 st1 rule) (loadRule p client i2 st2 rule).
Proof.
  intros Hname Hns Hr Hs. unfold loadRule.
  rewrite (updateIngressStatus_names p i1 i2 client Hname Hns), Hns.
  destruct (checkStringQuoteValidity _); [done |].
  destruct (v1beta1.IngressRule.HTTP rule) as [paths |]; [| done].
  destruct (loadPaths_http client (v1beta1.Ingress.Namespace i2)
              (v1beta1.IngressRule.Host rule) paths st1 st2 Hr Hs).
  destruct (updateIngressStatus p i2 client) as [[evs [err |]] |]; done.
Qed.

Lemma loadRules_http (p : Provider) (client : Client) (i1 i2 : v1beta1.Ingress.t)
    (rules : list v1beta1.IngressRule.t) (st1 st2 : translation) :
  v1beta1.Ingress.Name i1 = v1beta1.Ingress.Name i2 →
  v1beta1.Ingress.Namespace i1 = v1beta1.Ingress.Namespace i2 →
  routers st1 = routers st2 → services st1 = services st2 →
  sameHTTP (loadRules p client i1 rules st1) (loadRules p client i2 rules st2).
Proof.
  intros Hname Hns. revert st1 st2.
  induction rules as [| rule rules IH]; intros st1 st2 Hr Hs; [done |].
  cbn [loadRules].
  pose proof (loadRule_http p client i1 i2 st1 st2 rule Hname Hns Hr Hs) as H.
  destruct (loadRule p client i1 st1 rule), (loadRule p client i2 st2 rule);
    try done.
  destruct H. by apply IH.
Qed.

Lemma loadDefaultBackend_http (client : Client) (i1 i2 : v1beta1.Ingress.t)
    (st1 st2 : translation) :
  sameButTLS i1 i2 →
  routers st1 = routers st2 → services st1 = services st2 →
  match loadDefaultBackend client i1 st1, loadDefaultBackend client i2 st2 with
  | inl a, inl b | inr a, inr b => routers a = routers b ∧ services a = services b
  | _, _ => False
  end.
Proof.
  intros (_ & Hns & _ & Hb & Hrules)%sameButTLS_fields Hr Hs.
  unfold loadDefaultBackend. rewrite Hns, Hb, Hrules.
  destruct (bool_decide _); [| done].
  destruct (v1beta1.Ingress.Backend i2) as [backend |]; [| done].
  rewrite Hs. destruct (services st2 !! defaultBackendName); [done |].
  destruct (loadService _ _ _); cbn; by rewrite ?Hr, ?Hs.
Qed.

Lemma loadIngress_http (p : Provider) (client : Client) (i1 i2 : v1beta1.Ingress.t)
    (st1 st2 : translation) :
  sameButTLS i1 i2 →
  routers st1 = routers st2 → services st1 = services st2 →
  sameHTTP (loadIngress p client st1 i1) (loadIngress p client st2 i2).
Proof.
  intros Hsame Hr Hs.
  pose proof (sameButTLS_fields _ _ Hsame) as (Hname & Hns & Hann & Hb & Hrules).
  unfold loadIngress, classAnnotation. rewrite Hann.
  destruct (negb _); [done |].
  set (a := match tlsError (getTLS i1 _ _) with Some _ => _ | None => _ end).
  set (b := match tlsError (getTLS i2 _ _) with Some _ => _ | None => _ end).
  assert (routers a = routers b ∧ services a = services b) as [Hr' Hs'].
  { subst a b. by destruct (tlsError (getTLS i1 _ _)), (tlsError (getTLS i2 _ _)). }
  pose proof (loadDefaultBackend_http client i1 i2 a b Hsame Hr' Hs') as H.
  destruct (loadDefaultBackend client i1 a), (loadDefaultBackend client i2 b);
    try done.
  destruct H. rewrite Hrules. by apply loadRules_http.
Qed.

Lemma loadIngresses_http (p : Provider) (client : Client)
    (l1 l2 : list v1beta1.Ingress.t) (st1 st2 : translation) :
  Forall2 sameButTLS l1 l2 →
  routers st1 = routers st2 → services st1 = services st2 →
  sameHTTP (loadIngresses p client l1 st1) (loadIngresses p client l2 st2).
Proof.
  intros Hl. revert st1 st2.
  induction Hl as [| i1 i2 l1 l2 Hi _ IH]; intros st1 st2 Hr Hs; [done |].
  cbn [loadIngresses].
  pose proof (loadIngress_http p client i1 i2 st1 st2 Hi Hr Hs) as H.
  destruct (loadIngress p client st1 i1), (loadIngress p client st2 i2); try done.
  destruct H. by apply IH.
Qed.

(** ** A TLS section that fails, a TLS section without a secret name *)

Lemma getTLS_failing_section (client : Client) (ingress : v1beta1.Ingress.t)
    (pre post : list v1beta1.IngressTLS.t) (t : v1beta1.IngressTLS.t)
    (m : gmap string tls.CertAndStores.t) (err : error) :
  let namespace := v1beta1.Ingress.Namespace ingress in
  let secretName := v1beta1.IngressTLS.SecretName t in
  let before := getTLSSections client namespace pre m [] in
  v1beta1.Ingress.TLS ingress = pre ++ t :: post →
  tlsError before = None →
  secretName ≠ "" →
  tlsCache before !! (namespace +:+ "/" +:+ secretName) = None →
  resolveSecret client namespace secretName = inl err →
  getTLS ingress client m
  = mkTLS (tlsCache before) (tlsEvents before ++ [SecretFetch namespace secretName])
          (Some err).
Proof.
  intros namespace secretName before Htls Hbefore Hname Hcache Hresolve.
  unfold getTLS. rewrite Htls, getTLSSections_app. cbn zeta.
  fold namespace before. rewrite Hbefore, getTLSSections_cons. cbn zeta.
  fold secretName. rewrite bool_decide_eq_false_2 by done.
  by rewrite Hcache, Hresolve.
Qed.

(** C5, as the code has it: when the secret of a TLS section fails to
    resolve (fetch error, secret missing, certificate or key missing or
    empty), [getTLS] returns at once: the sections before it stay cached,
    the sections after it are neither fetched nor cached. The translator
    logs the error and goes on: the routers and services of this ingress and
    of the ingresses after it are those of a run in which the ingress has no
    TLS section at all. *)
Theorem tls_failure_ends_tls_of_ingress
    (p : Provider) (client : Client) (st : translation) (ingress : v1beta1.Ingress.t)
    (pre post : list v1beta1.IngressTLS.t) (t : v1beta1.IngressTLS.t) (err : error) :
  let namespace := v1beta1.Ingress.Namespace ingress in
  let secretName := v1beta1.IngressTLS.SecretName t in
  let before := getTLSSections client namespace pre (tlsConfigs st) [] in
  v1beta1.Ingress.TLS ingress = pre ++ t :: post →
  tlsError before = None →
  secretName ≠ "" →
  tlsCache before !! (namespace +:+ "/" +:+ secretName) = None →
  resolveSecret client namespace secretName = inl err →
  getTLS ingress client (tlsConfigs st)
  = mkTLS (tlsCache before) (tlsEvents before ++ [SecretFetch namespace secretName])
          (Some err)
  ∧ (shouldProcessIngress (IngressClass p) (classAnnotation ingress) = true →
     ∀ st', loadIngress p client st ingress = Returned st' →
            tlsConfigs st' = tlsCache before
            ∧ LogError ("Error configuring TLS: " +:+ err) ∈ events st')
  ∧ ∀ others,
      sameHTTP (loadIngresses p client (ingress :: others) st)
               (loadIngresses p client (withTLS ingress [] :: others) st).
Proof.
  intros namespace secretName before Htls Hbefore Hname Hcache Hresolve.
  pose proof (getTLS_failing_section client ingress pre post t (tlsConfigs st) err
                Htls Hbefore Hname Hcache Hresolve) as Hget.
  split; [exact Hget |]. split.
  - intros Hclass st' Hload.
    destruct (loadIngress_tls p client st st' ingress Hclass Hload) as [Hc He].
    rewrite Hget in Hc, He. cbn in Hc, He. split; [done |].
    eapply elem_of_prefix; [| exact He].
    rewrite !elem_of_app. right. right. by apply list_elem_of_singleton.
  - intros others. apply loadIngresses_http; [| done | done].
    constructor; [apply sameButTLS_withTLS |].
    apply Forall2_same_length_lookup_2; [done |]. by intros i x y -> [= ->].
Qed.

Lemma tls_failure_ends_tls_of_ingress_witness :
  getTLS Examples.brokenTLS
    (Examples.cluster [Examples.brokenTLS] Examples.webEndpoints) ∅
  = mkTLS {[ "default/a-secret" := Examples.certA ]}
      [SecretFetch "default" "a-secret"; SecretFetch "default" "missing"]
      (Some "secret default/missing does not exist").
Proof.
  refine (proj1 (tls_failure_ends_tls_of_ingress Examples.provider
           (Examples.cluster [Examples.brokenTLS] Examples.webEndpoints)
           emptyTranslation Examples.brokenTLS
           [v1beta1.IngressTLS.mk "a-secret"] [v1beta1.IngressTLS.mk "b-secret"]
           (v1beta1.IngressTLS.mk "missing") "secret default/missing does not exist"
           _ _ _ _ _)).
  - reflexivity.
  - vm_compute; reflexivity.
  - discriminate.
  - vm_compute; reflexivity.
  - vm_compute; reflexivity.
Defined.

(** C5 as the specification states it fails: the first TLS section of [broken-first]
    names a missing secret and its second one the secret [a-secret], which
    resolves; the second section is neither fetched nor cached, and the
    configuration has no certificate, while the router of the ingress is
    there. *)
Lemma tls_sections_after_failure_are_dropped :
  resolveSecret (Examples.cluster [Examples.brokenFirst] Examples.webEndpoints)
    "default" "a-secret" = inr Examples.certA
  ∧ getTLS Examples.brokenFirst
      (Examples.cluster [Examples.brokenFirst] Examples.webEndpoints) ∅
    = mkTLS ∅ [SecretFetch "default" "missing"]
        (Some "secret default/missing does not exist")
  ∧ loadConfigurationFromIngresses Examples.provider
      (Examples.cluster [Examples.brokenFirst] Examples.webEndpoints)
    = Returned (Examples.siteConf,
                [SecretFetch "default" "missing";
                 LogError "Error configuring TLS: secret default/missing does not exist";
                 StatusReconcile "default" "broken-first"]).
Proof. repeat split; vm_compute; reflexivity. Qed.

Lemma secretFetches_app (evs1 evs2 : list event) :
  secretFetches (evs1 ++ evs2) = secretFetches evs1 ++ secretFetches evs2.
Proof. apply omap_app. Qed.

(** C10: a TLS section with an empty secret name only writes a debug line.
    With it or without it among the sections of an ingress, [getTLS] leaves
    the same cache, fetches the same secrets and returns the same error or
    none; the sections behind it are handled as if it were not there. *)
Theorem empty_secret_name_is_skipped
    (client : Client) (name namespace : string) (annotations : gmap string string)
    (backend : option v1beta1.IngressBackend.t) (rules : list v1beta1.IngressRule.t)
    (pre post : list v1beta1.IngressTLS.t) (m : gmap string tls.CertAndStores.t) :
  let unnamed := v1beta1.IngressTLS.mk "" in
  let withIt :=
    getTLS (v1beta1.Ingress.mk name namespace annotations backend
              (pre ++ unnamed :: post) rules) client m in
  let without :=
    getTLS (v1beta1.Ingress.mk name namespace annotations backend
              (pre ++ post) rules) client m in
  tlsCache withIt = tlsCache without
  ∧ tlsError withIt = tlsError without
  ∧ secretFetches (tlsEvents withIt) = secretFetches (tlsEvents without)
  ∧ ∀ evs,
      getTLSSections client namespace (unnamed :: post) m evs
      = getTLSSections client namespace post m
          (evs ++ [LogDebug "Skipping TLS sub-section: No secret name provided"]).
Proof.
  intros unnamed withIt without. subst withIt without. unfold getTLS. cbn.
  rewrite !getTLSSections_app. cbn zeta.
  split; [| split; [| split]]; try done.
  all: destruct (tlsError (getTLSSections client namespace pre m [])); [done |].
  all: change (getTLSSections client namespace (unnamed :: post) ?m' ?evs)
         with (getTLSSections client namespace post m'
                 (evs ++ [LogDebug "Skipping TLS sub-section: No secret name provided"])).
  all: rewrite (getTLSSections_events _ _ post _ (_ ++ [_])).
  all: rewrite (getTLSSections_events _ _ post _ (tlsEvents _)); cbn; try done.
  rewrite !secretFetches_app. cbn. by rewrite app_nil_r.
Qed.

(** ** The certificate list is sorted by key *)

Lemma stringLe_compare (a b : string) : stringLe a b ↔ (a ?= b)%string ≠ Gt.
Proof. unfold stringLe, String.leb. by destruct (a ?= b)%string. Qed.

#[global] Instance stringLe_total : Total stringLe.
Proof.
  intros a b. rewrite !stringLe_compare, (String.compare_antisym b a).
  destruct (a ?= b)%string; cbn; [left | left | right]; done.
Qed.

#[global] Instance stringLe_antisymm : AntiSymm eq stringLe.
Proof.
  intros a b. rewrite !stringLe_compare, (String.compare_antisym b a).
  destruct (a ?= b)%string eqn:E; cbn; try done.
  intros _ _. by apply String.compare_eq_iff.
Qed.

#[global] Instance stringLe_trans : Transitive stringLe.
Proof.
  intros a b c. rewrite !stringLe_compare. intros Hab Hbc.
  destruct (a ?= b)%string eqn:Eab; [| | done].
  { apply String.compare_eq_iff in Eab. by subst. }
  destruct (b ?= c)%string eqn:Ebc; [| | done].
  { apply String.compare_eq_iff in Ebc. subst. by rewrite Eab. }
  pose proof (StrictOrder_Transitive (R := String_as_OT.lt) a b c Eab Ebc) as Hac.
  unfold String_as_OT.lt in Hac. change (String_as_OT.compare a c) with (a ?= c)%string in Hac.
  by rewrite Hac.
Qed.



Lemma sortStrings_permutation (l : list string) : sortStrings l ≡ₚ l.
Proof. apply merge_sort_Permutation. Qed.



Lemma certificateKeys_elem_of (m : gmap string tls.CertAndStores.t) (k : string) :
  k ∈ certificateKeys m ↔ is_Some (m !! k).
Proof.
  unfold certificateKeys. rewrite sortStrings_permutation, list_elem_of_fmap. split.
  - intros [[k' c] [-> H]]. apply elem_of_map_to_list in H. by eexists.
  - intros [c H]. exists (k, c). split; [done |]. by apply elem_of_map_to_list.
Qed.


Lemma getTLSConfig_keys (m : gmap string tls.CertAndStores.t) :
  Forall2 (fun k cert => m !! k = Some cert) (certificateKeys m) (getTLSConfig m).
Proof.
  unfold getTLSConfig, getTLSConfigIn. fold (certificateKeys m).
  assert (∀ k, k ∈ certificateKeys m → is_Some (m !! k)) as H
    by (intros k; apply certificateKeys_elem_of).
  induction (certificateKeys m) as [| k ks IH]; [constructor |].
  destruct (H k) as [cert Hk]; [by left |].
  cbn. rewrite Hk. cbn. constructor; [done |].
  apply IH. intros k' Hk'. apply H. by right.
Qed.


(** ** The cache does not depend on the order of the ingresses *)

Lemma configKey_inj (ns1 name1 ns2 name2 : string) :
  noSlash ns1 → noSlash ns2 →
  ns1 +:+ "/" +:+ name1 = ns2 +:+ "/" +:+ name2 →
  ns1 = ns2 ∧ name1 = name2.
Proof.
  unfold noSlash. revert ns2.
  induction ns1 as [| c ns1 IH]; intros [| c' ns2]; cbn; intros H1 H2 Heq;
    simplify_eq; [done |].
  apply orb_false_iff in H1 as [_ H1]. apply orb_false_iff in H2 as [_ H2].
  by destruct (IH ns2 H1 H2) as [-> ->].
Qed.





Lemma tlsPass_cons (p : Provider) (client : Client) (ingress : v1beta1.Ingress.t)
    (rest : list v1beta1.Ingress.t) (m : gmap string tls.CertAndStores.t) :
  tlsPass p client (ingress :: rest) m
  = tlsPass p client rest
      (if processed p ingress then tlsCache (getTLS ingress client m) else m).
Proof. done. Qed.




Lemma loadIngresses_tlsConfigs (p : Provider) (client : Client)
    (ingresses : list v1beta1.Ingress.t) (st st' : translation) :
  loadIngresses p client ingresses st = Returned st' →
  tlsConfigs st' = tlsPass p client ingresses (tlsConfigs st).
Proof.
  revert st. induction ingresses as [| i rest IH]; intros st H; cbn in H.
  - by simplify_eq.
  - destruct (loadIngress p client st i) as [st1 |] eqn:Hi; [| done].
    rewrite (IH _ H), tlsPass_cons. f_equal. unfold processed.
    destruct (shouldProcessIngress _ _) eqn:Hclass.
    + by destruct (loadIngress_tls p client st st1 i Hclass Hi).
    + rewrite loadIngress_skipped in Hi by done. by simplify_eq.
Qed.

(** ** When the translation returns *)

Lemma loadRule_panic_iff (p : Provider) (client : Client) (ingress : v1beta1.Ingress.t)
    (st : translation) (rule : v1beta1.IngressRule.t) :
  loadRule p client ingress st rule = Panic ↔ rulePanics p client ingress rule = true.
Proof.
  unfold loadRule, rulePanics, hostOk.
  destruct (checkStringQuoteValidity _) as [e |]; [done |].
  destruct (v1beta1.IngressRule.HTTP rule) as [paths |]; [| done].
  by destruct (updateIngressStatus p ingress client) as [[evs [err |]] |].
Qed.

Lemma loadRules_panic_iff (p : Provider) (client : Client) (ingress : v1beta1.Ingress.t)
    (rules : list v1beta1.IngressRule.t) (st : translation) :
  loadRules p client ingress rules st = Panic ↔
  existsb (rulePanics p client ingress) rules = true.
Proof.
  revert st. induction rules as [| rule rules IH]; intros st; cbn; [done |].
  rewrite orb_true_iff, <- (loadRule_panic_iff p client ingress st rule).
  destruct (loadRule p client ingress st rule) as [st1 |].
  - rewrite IH. split; [by right | by intros [? | ?]].
  - split; [by left | done].
Qed.

Lemma loadIngress_panic_iff (p : Provider) (client : Client) (st : translation)
    (ingress : v1beta1.Ingress.t) :
  loadIngress p client st ingress = Panic ↔ ingressPanics p client ingress = true.
Proof.
  unfold loadIngress, ingressPanics, processed.
  destruct (shouldProcessIngress _ _); cbn; [| done].
  set (st2 := match tlsError _ with Some _ => _ | None => _ end).
  destruct (v1beta1.Ingress.Rules ingress) as [| rule rules] eqn:Hrules.
  - cbn. by destruct (loadDefaultBackend client ingress st2).
  - rewrite loadDefaultBackend_with_rules by (by rewrite Hrules).
    apply loadRules_panic_iff.
Qed.

Lemma loadIngresses_panic_iff (p : Provider) (client : Client)
    (ingresses : list v1beta1.Ingress.t) (st : translation) :
  loadIngresses p client ingresses st = Panic ↔
  existsb (ingressPanics p client) ingresses = true.
Proof.
  revert st. induction ingresses as [| i rest IH]; intros st; cbn; [done |].
  rewrite orb_true_iff, <- (loadIngress_panic_iff p client st i).
  destruct (loadIngress p client st i) as [st1 |].
  - rewrite IH. split; [by right | by intros [? | ?]].
  - split; [by left | done].
Qed.

(** The translation returns a configuration exactly when no processed
    ingress has a rule that panics. *)
Lemma loadConfigurationFromIngresses_returns_iff (p : Provider) (client : Client) :
  (∃ conf evs, loadConfigurationFromIngresses p client = Returned (conf, evs)) ↔
  Forall (fun i => ingressPanics p client i = false) (GetIngresses client).
Proof.
  unfold loadConfigurationFromIngresses.
  pose proof (loadIngresses_panic_iff p client (GetIngresses client) emptyTranslation) as H.
  rewrite Forall_forall.
  destruct (loadIngresses p client (GetIngresses client) emptyTranslation) as [st |].
  - split; [| by eauto]. intros _ i Hi.
    destruct (ingressPanics p client i) eqn:E; [| done].
    assert (existsb (ingressPanics p client) (GetIngresses client) = true) as Hex.
    { apply existsb_exists. exists i. split; [by apply list_elem_of_In | done]. }
    by apply H in Hex.
  - split; [intros (conf & evs & Hc); discriminate |]. intros Hall.
    pose proof (proj1 H eq_refl) as Hex. apply existsb_exists in Hex as (i & Hi & E).
    apply list_elem_of_In in Hi. by rewrite (Hall i Hi) in E.
Qed.

(** The steps of the translation read the ingresses from their argument,
    not from the client. *)
Lemma getTLSSections_withIngresses (client : Client) (l : list v1beta1.Ingress.t)
    (namespace : string) (sections : list v1beta1.IngressTLS.t)
    (m : gmap string tls.CertAndStores.t) (evs : list event) :
  getTLSSections (withIngresses client l) namespace sections m evs
  = getTLSSections client namespace sections m evs.
Proof.
  revert m evs. induction sections as [| t rest IH]; intros m evs; [done |].
  cbn [getTLSSections]. cbn [withIngresses GetSecret].
  repeat case_match; simplify_eq; by rewrite ?IH.
Qed.

Lemma loadRules_withIngresses (p : Provider) (client : Client) (l : list v1beta1.Ingress.t)
    (ingress : v1beta1.Ingress.t) (rules : list v1beta1.IngressRule.t) (st : translation) :
  loadRules p (withIngresses client l) ingress rules st
  = loadRules p client ingress rules st.
Proof.
  revert st. induction rules as [| rule rules IH]; intros st; [done |].
  cbn [loadRules].
  assert (loadRule p (withIngresses client l) ingress st rule
          = loadRule p client ingress st rule) as -> by done.
  destruct (loadRule p client ingress st rule); by rewrite ?IH.
Qed.

Lemma loadIngresses_withIngresses (p : Provider) (client : Client)
    (l ingresses : list v1beta1.Ingress.t) (st : translation) :
  loadIngresses p (withIngresses client l) ingresses st
  = loadIngresses p client ingresses st.
Proof.
  revert st. induction ingresses as [| i rest IH]; intros st; [done |].
  cbn [loadIngresses].
  assert (loadIngress p (withIngresses client l) st i = loadIngress p client st i) as ->.
  { unfold loadIngress, getTLS. rewrite getTLSSections_withIngresses.
    destruct (negb _); [done |].
    match goal with
    | |- context [loadDefaultBackend (withIngresses client l) i ?s] =>
        change (loadDefaultBackend (withIngresses client l) i s)
          with (loadDefaultBackend client i s)
    end.
    destruct (loadDefaultBackend _ _ _); [done |]. apply loadRules_withIngresses. }
  destruct (loadIngress p client st i); by rewrite ?IH.
Qed.

Lemma ingressPanics_withIngresses (p : Provider) (client : Client)
    (l : list v1beta1.Ingress.t) (i : v1beta1.Ingress.t) :
  ingressPanics p (withIngresses client l) i = ingressPanics p client i.
Proof. done. Qed.


Lemma loadConfigurationFromIngresses_tls (p : Provider) (client : Client)
    (conf : config.Configuration.t) (evs : list event) :
  loadConfigurationFromIngresses p client = Returned (conf, evs) →
  config.Configuration.TLS conf
  = (let certs := getTLSConfig (tlsPass p client (GetIngresses client) ∅) in
     if bool_decide (0 < length certs)%nat then Some certs else None).
Proof.
  unfold loadConfigurationFromIngresses.
  destruct (loadIngresses p client (GetIngresses client) emptyTranslation) as [st |] eqn:H;
    [| done].
  intros [= <- <-]. cbn. by rewrite (loadIngresses_tlsConfigs _ _ _ _ _ H).
Qed.



(** ** Service keys *)

Lemma Contains_app (a b : string) (c : ascii) :
  strings.Contains (a +:+ b) c = strings.Contains a c || strings.Contains b c.
Proof.
  induction a as [| d a IH]; [done |].
  change (String d a +:+ b) with (String d (a +:+ b)). cbn. by rewrite IH, orb_assoc.
Qed.

Lemma Contains_ReplaceAll (s : string) (old new c : ascii) :
  c ≠ old → c ≠ new →
  strings.Contains (strings.ReplaceAll s old new) c = strings.Contains s c.
Proof.
  intros Hold Hnew. induction s as [| d s IH]; cbn; [done |]. rewrite IH. f_equal.
  destruct (Ascii.eqb_spec d old) as [-> | Hd]; [| done].
  destruct (Ascii.eqb_spec new c), (Ascii.eqb_spec old c); congruence.
Qed.

Lemma ReplaceAll_absent (s : string) (old new : ascii) :
  strings.Contains s old = false → strings.ReplaceAll s old new = s.
Proof.
  induction s as [| d s IH]; cbn; [done |].
  intros [Hd Hs]%orb_false_iff. by rewrite Hd, IH.
Qed.

Lemma serviceKey_not_default (namespace : string) (backend : v1beta1.IngressBackend.t) :
  serviceKey namespace backend ≠ defaultBackendName.
Proof.
  intros H. apply (f_equal (fun s => strings.Contains s "/")) in H.
  unfold serviceKey in H. rewrite Contains_ReplaceAll in H by done.
  rewrite !Contains_app in H. cbn in H. by rewrite orb_true_r in H.
Qed.

Lemma uint_noDot (d : Decimal.uint) : noDot (NilEmpty.string_of_uint d).
Proof. unfold noDot. induction d; cbn; done. Qed.

Lemma itoa_noDot (n : Z) : noDot (itoa n).
Proof.
  unfold itoa, NilZero.string_of_int, NilZero.string_of_uint.
  destruct (Z.to_int n) as [d | d]; [| unfold noDot; cbn];
    destruct d; try apply uint_noDot; done.
Qed.

Lemma itoa_inj (n1 n2 : Z) : itoa n1 = itoa n2 → n1 = n2.
Proof.
  unfold itoa. intros H. apply to_int_inj.
  assert (∀ n, Z.to_int n ≠ Decimal.Pos Decimal.Nil ∧ Z.to_int n ≠ Decimal.Neg Decimal.Nil)
    as Hnil.
  { intros [| q | q]; cbn; split; try done;
      intros [= E]; by destruct (Unsigned.to_uint_nonnil q). }
  apply (f_equal NilZero.int_of_string) in H.
  rewrite !NilZero.isi in H by apply Hnil. congruence.
Qed.

(** C8, as the code has it: between backend references whose namespace and
    service name have neither a dot nor a slash and whose port names have no
    dot, equal service keys mean the same namespace, the same service name,
    and the same port number or the same port name; only a port number and
    a port named by the decimal numeral of that number share a key. So two
    distinct port numbers, and two distinct port names, of one service have
    distinct keys. *)
Theorem serviceKey_injective_on_plain_references
    (namespace1 namespace2 : string) (backend1 backend2 : v1beta1.IngressBackend.t) :
  plainReference namespace1 backend1 →
  plainReference namespace2 backend2 →
  serviceKey namespace1 backend1 = serviceKey namespace2 backend2 →
  namespace1 = namespace2
  ∧ v1beta1.IngressBackend.ServiceName backend1 = v1beta1.IngressBackend.ServiceName backend2
  ∧ match v1beta1.IngressBackend.ServicePort backend1,
          v1beta1.IngressBackend.ServicePort backend2 with
    | intstr.Int n1, intstr.Int n2 => n1 = n2
    | intstr.String s1, intstr.String s2 => s1 = s2
    | intstr.Int n, intstr.String s | intstr.String s, intstr.Int n => s = itoa n
    end.
Proof.
  intros (Hs1 & Hd1 & Hsn1 & Hdn1 & Hp1) (Hs2 & Hd2 & Hsn2 & Hdn2 & Hp2) Hkey.
  assert (∀ ns b, noDot ns → noDot (v1beta1.IngressBackend.ServiceName b) →
                  match v1beta1.IngressBackend.ServicePort b with
                  | intstr.Int _ => True
                  | intstr.String name => noDot name
                  end →
                  serviceKey ns b
                  = ns +:+ "/" +:+ (v1beta1.IngressBackend.ServiceName b +:+ "/"
                                    +:+ intstr.String_ (v1beta1.IngressBackend.ServicePort b)))
    as Hplain.
  { intros ns b Hns Hname Hport. unfold serviceKey. apply ReplaceAll_absent.
    rewrite !Contains_app, Hns, Hname. cbn.
    destruct (v1beta1.IngressBackend.ServicePort b); [apply itoa_noDot | exact Hport]. }
  rewrite !Hplain in Hkey by done.
  destruct (configKey_inj _ _ _ _ Hs1 Hs2 Hkey) as [-> Hrest].
  destruct (configKey_inj _ _ _ _ Hsn1 Hsn2 Hrest) as [-> Hport].
  split; [done |]. split; [done |].
  destruct (v1beta1.IngressBackend.ServicePort backend1),
           (v1beta1.IngressBackend.ServicePort backend2); cbn in Hport; try done.
  by apply itoa_inj.
Qed.

Lemma serviceKey_injective_on_plain_references_witness :
  "default" = "default"
  ∧ v1beta1.IngressBackend.ServiceName (Examples.backend "web" (intstr.Int 80))
    = v1beta1.IngressBackend.ServiceName (Examples.backend "web" (intstr.Int 80))
  ∧ 80 = 80.
Proof.
  apply (serviceKey_injective_on_plain_references "default" "default"
           (Examples.backend "web" (intstr.Int 80)) (Examples.backend "web" (intstr.Int 80)));
    [repeat split | repeat split | reflexivity].
Defined.

(** C8 as the specification states it fails: the port names [a.b] and [a-b] of the
    service [web] get the same key, and so do the port number 80 and the
    port name [80]. *)
Lemma distinct_references_share_a_service_key :
  Examples.backend "web" (intstr.String "a.b") ≠ Examples.backend "web" (intstr.String "a-b")
  ∧ serviceKey "default" (Examples.backend "web" (intstr.String "a.b"))
    = serviceKey "default" (Examples.backend "web" (intstr.String "a-b"))
  ∧ Examples.backend "web" (intstr.Int 80) ≠ Examples.backend "web" (intstr.String "80")
  ∧ serviceKey "default" (Examples.backend "web" (intstr.Int 80))
    = serviceKey "default" (Examples.backend "web" (intstr.String "80")).
Proof. repeat split; done. Qed.

(** ** The default backend *)




Lemma loadPath_router (client : Client) (namespace host : string) (st : translation)
    (pa : v1beta1.HTTPIngressPath.t) (k : string) :
  routerKey host (v1beta1.HTTPIngressPath.Path pa) ≠ k →
  routers (loadPath client namespace host st pa) !! k = routers st !! k.
Proof.
  intros Hk. unfold loadPath. repeat case_match; cbn; try done.
  by apply lookup_insert_ne.
Qed.

Lemma loadPaths_router (client : Client) (namespace host : string)
    (paths : list v1beta1.HTTPIngressPath.t) (st : translation) (k : string) :
  k ∉ map (fun pa => routerKey host (v1beta1.HTTPIngressPath.Path pa)) paths →
  routers (fold_left (loadPath client namespace host) paths st) !! k = routers st !! k.
Proof.
  revert st. induction paths as [| pa paths IH]; intros st Hk; [done |].
  cbn in Hk. apply not_elem_of_cons in Hk as [Hk Hks].
  cbn [fold_left]. rewrite IH by done. by apply loadPath_router.
Qed.


(** What the turn of an ingress does to the state before the default
    backend branch. *)
Lemma loadIngress_processed (p : Provider) (client : Client) (st : translation)
    (ingress : v1beta1.Ingress.t) :
  processed p ingress = true →
  ∃ st1,
    routers st1 = routers st ∧ services st1 = services st
    ∧ loadIngress p client st ingress
      = match loadDefaultBackend client ingress st1 with
        | inl st2 => Returned st2
        | inr st2 => loadRules p client ingress (v1beta1.Ingress.Rules ingress) st2
        end.
Proof.
  unfold processed, loadIngress. intros ->. cbn [negb].
  eexists. split; [| split; [| reflexivity]]; by destruct (tlsError _).
Qed.






Lemma loadIngresses_app (p : Provider) (client : Client)
    (pre post : list v1beta1.Ingress.t) (st : translation) :
  loadIngresses p client (pre ++ post) st
  = match loadIngresses p client pre st with
    | Panic => Panic
    | Returned st1 => loadIngresses p client post st1
    end.
Proof.
  revert st. induction pre as [| i pre IH]; intros st; [done |].
  cbn. destruct (loadIngress p client st i); [apply IH | done].
Qed.





(** ** Scenarios *)

(** An ingress without rules whose fallback backend is the alias service
    [fallback]: one router for every path at the lowest priority, one target
    with the external name, and no endpoint lookup (the cluster has no
    endpoints for [fallback]). *)
Lemma scenario_fallback_alias :
  loadConfigurationFromIngresses Examples.provider
    (Examples.cluster [Examples.defaultOne] Examples.webEndpoints)
  = Returned (config.Configuration.mk {[ "/" := defaultRouter ]}
                {[ "default-backend" := Examples.fallbackTargets ]} None,
              []).
Proof. vm_compute; reflexivity. Qed.

(** Two ingresses without rules: the second is dropped with an error line. *)
Lemma scenario_two_defaults :
  loadConfigurationFromIngresses Examples.provider
    (Examples.cluster [Examples.defaultOne; Examples.defaultTwo] Examples.webEndpoints)
  = Returned (config.Configuration.mk {[ "/" := defaultRouter ]}
                {[ "default-backend" := Examples.fallbackTargets ]} None,
              [LogError "The default backend already exists."]).
Proof. vm_compute; reflexivity. Qed.

(** The secrets [b-secret] and [a-secret], named in either order, give the
    certificate of [a-secret] before that of [b-secret]. *)
Lemma scenario_certificates_in_key_order :
  getTLSConfig (tlsPass Examples.provider
                  (Examples.cluster [] Examples.webEndpoints)
                  [Examples.tlsB; Examples.tlsA] ∅)
  = [Examples.certA; Examples.certB]
  ∧ getTLSConfig (tlsPass Examples.provider
                    (Examples.cluster [] Examples.webEndpoints)
                    [Examples.tlsA; Examples.tlsB] ∅)
    = [Examples.certA; Examples.certB].
Proof. split; vm_compute; reflexivity. Qed.

(** A host with a bare double quote is refused, and so is a newline; the
    escapes of a Go string literal are accepted. *)
Lemma scenario_quote_validity :
  checkStringQuoteValidity "example.com" = None
  ∧ checkStringQuoteValidity (String strconv.dquote "example.com") = Some "invalid syntax"
  ∧ checkStringQuoteValidity (String strconv.newline "example.com") = Some "invalid syntax"
  ∧ checkStringQuoteValidity "tab\tin\x41" = None
  ∧ checkStringQuoteValidity "bad\q" = Some "invalid syntax".
Proof. repeat split; vm_compute; reflexivity. Qed.

(** ** Certificate blocks of a secret *)

(** X1: [getCertificateBlocks] succeeds exactly when the secret has both
    entries [tls.crt] and [tls.key] and neither is empty, and it then returns
    the two entries as they are. *)
Theorem getCertificateBlocks_succeeds_iff
    (secret : corev1.Secret.t) (namespace secretName cert key : string) :
  getCertificateBlocks secret namespace secretName = inr (cert, key) ↔
  corev1.Secret.Data secret !! "tls.crt" = Some cert
  ∧ corev1.Secret.Data secret !! "tls.key" = Some key
  ∧ cert ≠ "" ∧ key ≠ "".
Proof.
  unfold getCertificateBlocks.
  destruct (corev1.Secret.Data secret !! "tls.crt") as [c |] eqn:Hc;
    destruct (corev1.Secret.Data secret !! "tls.key") as [k |] eqn:Hk; cbn;
    try (split; [done | by intros (? & ? & _)]).
  destruct (decide (c = "")) as [-> | Hc0]; destruct (decide (k = "")) as [-> | Hk0].
  - split; [done | by intros ([= <-] & _ & ? & _)].
  - rewrite (bool_decide_eq_false_2 (k = "")) by done. cbn.
    split; [done | by intros ([= <-] & _ & ? & _)].
  - rewrite (bool_decide_eq_false_2 (c = "")) by done. cbn.
    split; [done | by intros (_ & [= <-] & _ & ?)].
  - rewrite (bool_decide_eq_false_2 (c = "")), (bool_decide_eq_false_2 (k = "")) by done.
    cbn. split; [by intros [= <- <-] | by intros ([= <-] & [= <-] & _)].
Qed.

(** ** The cache of [getTLS] *)

Lemma getTLSSections_keeps (client : Client) (namespace : string)
    (sections : list v1beta1.IngressTLS.t) (m : gmap string tls.CertAndStores.t)
    (evs : list event) :
  m ⊆ tlsCache (getTLSSections client namespace sections m evs).
Proof.
  revert m evs. induction sections as [| t rest IH]; intros m evs; [done |].
  rewrite getTLSSections_cons. cbn zeta.
  case_bool_decide; [apply IH |].
  destruct (m !! _) eqn:Hm; [apply IH |].
  destruct (resolveSecret _ _ _); [done |].
  etrans; [by apply insert_subseteq | apply IH].
Qed.

Lemma getTLSSections_fetches (client : Client) (namespace : string)
    (sections : list v1beta1.IngressTLS.t) (m : gmap string tls.CertAndStores.t) :
  let fetched := secretFetches (tlsEvents (getTLSSections client namespace sections m [])) in
  NoDup fetched
  ∧ ∀ ns name,
      (ns, name) ∈ fetched →
      ns = namespace ∧ name ≠ ""
      ∧ v1beta1.IngressTLS.mk name ∈ sections
      ∧ m !! (namespace +:+ "/" +:+ name) = None.
Proof.
  revert m. induction sections as [| t rest IH]; intros m.
  { cbn. split; [constructor | by intros ns name ?%elem_of_nil]. }
  rewrite getTLSSections_cons. cbn zeta.
  case_bool_decide as Hname.
  { rewrite getTLSSections_events. cbn. destruct (IH m) as [Hnd Hin].
    split; [done |]. intros ns name Hf. destruct (Hin ns name Hf) as (? & ? & ? & ?).
    repeat split; try done. by right. }
  destruct (m !! _) eqn:Hm.
  { destruct (IH m) as [Hnd Hin]. split; [done |].
    intros ns name Hf. destruct (Hin ns name Hf) as (? & ? & ? & ?).
    repeat split; try done. by right. }
  destruct t as [secretName]. cbn in *.
  destruct (resolveSecret _ _ _) as [err | cert].
  { cbn. split; [apply NoDup_singleton |].
    intros ns name [= -> ->]%list_elem_of_singleton. repeat split; try done. by left. }
  rewrite getTLSSections_events. cbn.
  destruct (IH (<[namespace +:+ "/" +:+ secretName := cert]> m)) as [Hnd Hin].
  split.
  - apply NoDup_cons. split; [| done]. intros Hf.
    destruct (Hin _ _ Hf) as (_ & _ & _ & Hnone). by rewrite lookup_insert_eq in Hnone.
  - intros ns name [[= -> ->] | Hf]%elem_of_cons.
    + repeat split; try done. by left.
    + destruct (Hin ns name Hf) as (-> & ? & ? & Hnone). repeat split; try done; [by right |].
      apply lookup_insert_None in Hnone. by destruct Hnone.
Qed.

(** X2: [getTLS] only adds to the cache: every entry that was cached before
    the call is still there, with the same certificate. *)
Theorem getTLS_keeps_cached_entries
    (ingress : v1beta1.Ingress.t) (client : Client) (m : gmap string tls.CertAndStores.t) :
  m ⊆ tlsCache (getTLS ingress client m)
  ∧ ∀ k cert, m !! k = Some cert → tlsCache (getTLS ingress client m) !! k = Some cert.
Proof.
  assert (m ⊆ tlsCache (getTLS ingress client m)) as H by apply getTLSSections_keeps.
  split; [done |]. intros k cert Hk. by eapply lookup_weaken.
Qed.

(** X3: one call of [getTLS] fetches no secret twice and fetches no secret
    whose key is in the cache already; every fetch is for a named TLS section
    of the ingress, in the namespace of the ingress. *)
Theorem getTLS_fetches_uncached_secrets_once
    (ingress : v1beta1.Ingress.t) (client : Client) (m : gmap string tls.CertAndStores.t) :
  NoDup (secretFetches (tlsEvents (getTLS ingress client m)))
  ∧ ∀ ns name,
      (ns, name) ∈ secretFetches (tlsEvents (getTLS ingress client m)) →
      ns = v1beta1.Ingress.Namespace ingress ∧ name ≠ ""
      ∧ v1beta1.IngressTLS.mk name ∈ v1beta1.Ingress.TLS ingress
      ∧ m !! (v1beta1.Ingress.Namespace ingress +:+ "/" +:+ name) = None.
Proof. apply getTLSSections_fetches. Qed.

Lemma getTLSSections_error (client : Client) (namespace : string)
    (sections : list v1beta1.IngressTLS.t) (m : gmap string tls.CertAndStores.t)
    (evs : list event) :
  let r := getTLSSections client namespace sections m evs in
  (∀ err, tlsError r = Some err →
     ∃ t, t ∈ sections ∧ v1beta1.IngressTLS.SecretName t ≠ ""
          ∧ resolveSecret client namespace (v1beta1.IngressTLS.SecretName t) = inl err)
  ∧ (tlsError r = None →
     ∀ t, t ∈ sections → v1beta1.IngressTLS.SecretName t ≠ "" →
          is_Some (tlsCache r !! (namespace +:+ "/" +:+ v1beta1.IngressTLS.SecretName t))).
Proof.
  revert m evs. induction sections as [| t rest IH]; intros m evs.
  { cbn. split; [done | by intros _ t ?%elem_of_nil]. }
  rewrite getTLSSections_cons. cbn zeta.
  assert (∀ m' evs',
    (m !! (namespace +:+ "/" +:+ v1beta1.IngressTLS.SecretName t) = None →
     v1beta1.IngressTLS.SecretName t ≠ "" →
     is_Some (m' !! (namespace +:+ "/" +:+ v1beta1.IngressTLS.SecretName t))) →
    let r := getTLSSections client namespace rest m' evs' in
    (∀ err, tlsError r = Some err →
       ∃ t', t' ∈ t :: rest ∧ v1beta1.IngressTLS.SecretName t' ≠ ""
             ∧ resolveSecret client namespace (v1beta1.IngressTLS.SecretName t') = inl err)
    ∧ (tlsError r = None → m ⊆ m' →
       ∀ t', t' ∈ t :: rest → v1beta1.IngressTLS.SecretName t' ≠ "" →
             is_Some (tlsCache r
                        !! (namespace +:+ "/" +:+ v1beta1.IngressTLS.SecretName t'))))
    as Hrest.
  { intros m' evs' Hhead. destruct (IH m' evs') as [Herr Hok]. split.
    - intros err He. destruct (Herr err He) as (t' & ? & ? & ?). exists t'.
      split; [by right | done].
    - intros Hnone Hsub t' [-> | Hin]%elem_of_cons Hname; [| by apply Hok].
      destruct (m !! (namespace +:+ "/" +:+ v1beta1.IngressTLS.SecretName t))
        as [cert |] eqn:Hm.
      + exists cert. eapply lookup_weaken; [| apply getTLSSections_keeps].
        by eapply lookup_weaken.
      + destruct (Hhead eq_refl Hname) as [cert Hcert]. exists cert.
        eapply lookup_weaken; [exact Hcert | apply getTLSSections_keeps]. }
  case_bool_decide as Hname.
  { destruct (Hrest m (evs ++ [LogDebug "Skipping TLS sub-section: No secret name provided"]))
      as [Herr Hok]; [done |]. split; [done |]. intros Hnone. by apply Hok. }
  destruct (m !! _) eqn:Hm.
  { destruct (Hrest m evs) as [Herr Hok]; [by rewrite Hm |]. split; [done |].
    intros Hnone. by apply Hok. }
  destruct (resolveSecret _ _ _) as [err | cert] eqn:Hres.
  { cbn. split; [| done]. intros err' [= <-]. exists t. split; [by left | done]. }
  destruct (Hrest (<[namespace +:+ "/" +:+ v1beta1.IngressTLS.SecretName t := cert]> m)
                  (evs ++ [SecretFetch namespace (v1beta1.IngressTLS.SecretName t)]))
    as [Herr Hok]; [by rewrite lookup_insert_eq |].
  split; [done |]. intros Hnone. apply Hok; [done |]. by apply insert_subseteq.
Qed.

(** X4: an error returned by [getTLS] is the error of resolving the secret
    of one of the named TLS sections of the ingress; when [getTLS] returns no
    error, the key of every named TLS section of the ingress is in the
    cache. *)
Theorem getTLS_error_or_all_sections_cached
    (ingress : v1beta1.Ingress.t) (client : Client) (m : gmap string tls.CertAndStores.t) :
  (∀ err, tlsError (getTLS ingress client m) = Some err →
     ∃ t, t ∈ v1beta1.Ingress.TLS ingress ∧ v1beta1.IngressTLS.SecretName t ≠ ""
          ∧ resolveSecret client (v1beta1.Ingress.Namespace ingress)
              (v1beta1.IngressTLS.SecretName t) = inl err)
  ∧ (tlsError (getTLS ingress client m) = None →
     ∀ t, t ∈ v1beta1.Ingress.TLS ingress → v1beta1.IngressTLS.SecretName t ≠ "" →
          is_Some (tlsCache (getTLS ingress client m)
                     !! (v1beta1.Ingress.Namespace ingress +:+ "/"
                         +:+ v1beta1.IngressTLS.SecretName t))).
Proof. apply getTLSSections_error. Qed.

Lemma getTLSConfig_length (m : gmap string tls.CertAndStores.t) :
  length (getTLSConfig m) = size m.
Proof.
  rewrite <- (Forall2_length _ _ _ (getTLSConfig_keys m)).
  unfold certificateKeys. rewrite sortStrings_permutation, length_fmap.
  apply length_map_to_list.
Qed.

(** X5: the configuration carries one certificate for each entry of the
    cache of the pass. Its TLS part is left out exactly when the cache is
    empty, and is never present with an empty certificate list. *)
Theorem tls_part_present_iff_certificates
    (p : Provider) (client : Client) (conf : config.Configuration.t) (evs : list event) :
  loadConfigurationFromIngresses p client = Returned (conf, evs) →
  let cache := tlsPass p client (GetIngresses client) ∅ in
  length (certificates conf) = size cache
  ∧ (config.Configuration.TLS conf = None ↔ cache = ∅)
  ∧ (∀ certs, config.Configuration.TLS conf = Some certs → certs ≠ []).
Proof.
  intros Hload cache.
  pose proof (loadConfigurationFromIngresses_tls _ _ _ _ Hload) as Htls.
  cbn zeta in Htls. fold cache in Htls.
  pose proof (getTLSConfig_length cache) as Hlen.
  unfold certificates. rewrite Hlen in Htls. rewrite Htls. clear Htls.
  case_bool_decide as Hpos; cbn.
  - split; [done |]. split.
    + split; [done |]. intros Hempty.
      apply map_size_empty_iff in Hempty. lia.
    + intros certs [= <-] Hnil. rewrite Hnil in Hlen. cbn in Hlen. lia.
  - assert (size cache = 0%nat) as Hsize by lia.
    split; [done |]. split; [| done].
    split; [| done]. intros _. by apply map_size_empty_iff.
Qed.

Lemma tls_part_present_iff_certificates_witness :
  length (certificates Examples.siteConfTLS)
  = size (tlsPass Examples.provider
            (Examples.cluster [Examples.tlsB; Examples.tlsA] Examples.webEndpoints)
            [Examples.tlsB; Examples.tlsA] ∅).
Proof.
  refine (proj1 (tls_part_present_iff_certificates Examples.provider
            (Examples.cluster [Examples.tlsB; Examples.tlsA] Examples.webEndpoints)
            Examples.siteConfTLS
            [SecretFetch "default" "b-secret"; StatusReconcile "default" "tls-b";
             SecretFetch "default" "a-secret"; StatusReconcile "default" "tls-a"] _)).
  vm_compute; reflexivity.
Defined.

(** ** The targets of a service *)

Lemma HasPrefix_app (prefix rest : string) :
  strings.HasPrefix (prefix +:+ rest) prefix = true.
Proof.
  unfold strings.HasPrefix. induction prefix as [| c prefix IH]; [by destruct rest |].
  change (String c prefix +:+ rest) with (String c (prefix +:+ rest)). cbn.
  by destruct (Ascii.ascii_dec c c).
Qed.

Lemma loadSubsets_listed (portName : string) (subsets : list corev1.EndpointSubset.t)
    (port : Z) (servers : list config.Server.t) :
  Forall (fun subset => namedPort portName subset ≠ 0) subsets →
  loadSubsets portName subsets port servers
  = inr (servers
         ++ flat_map (fun subset =>
                        subsetTargets portName subset (namedPort portName subset))
                     subsets).
Proof.
  intros Hall. revert port servers.
  induction Hall as [| subset rest Hport _ IH]; intros port servers.
  { cbn. by rewrite app_nil_r. }
  cbn [loadSubsets flat_map]. unfold namedPort in Hport.
  unfold subsetTargets, scheme, namedPort.
  destruct (find _ (corev1.EndpointSubset.Ports subset)) as [ep |]; [| done].
  rewrite bool_decide_eq_false_2 by done. by rewrite IH, <- app_assoc.
Qed.

Lemma loadSubsets_count (portName : string) (subsets : list corev1.EndpointSubset.t)
    (port : Z) (servers out : list config.Server.t) :
  loadSubsets portName subsets port servers = inr out →
  length out
  = (length servers
     + length (flat_map corev1.EndpointSubset.Addresses subsets))%nat
  ∧ (Forall httpURL servers → Forall httpURL out).
Proof.
  revert port servers. induction subsets as [| subset rest IH]; intros port servers.
  { cbn. intros [= <-]. by rewrite Nat.add_0_r. }
  cbn [loadSubsets flat_map]. case_bool_decide; [done |].
  intros Hload. destruct (IH _ _ Hload) as [Hlen Hurl]. split.
  - rewrite Hlen, !length_app, length_map. lia.
  - intros Hservers. apply Hurl, Forall_app. split; [done |].
    apply Forall_forall. intros server (addr & -> & _)%list_elem_of_fmap.
    unfold httpURL, serverURL. cbn.
    destruct (bool_decide _ || _);
      [right; refine (HasPrefix_app "https://" _) | left; refine (HasPrefix_app "http://" _)].
Qed.

(** X6: for a cluster-kind service whose endpoint subsets all list the
    port named like the matched service port, [loadService] returns, for
    each subset in order, one target for each of its addresses, on the port
    and with the scheme of that subset ([https] for port 443 or a port name
    that starts with [https], [http] otherwise). *)
Theorem loadService_targets_of_listed_port
    (client : Client) (namespace : string) (backend : v1beta1.IngressBackend.t)
    (service : corev1.Service.t) (portSpec : corev1.ServicePort.t)
    (endpoints : corev1.Endpoints.t) :
  let portName := corev1.ServicePort.Name portSpec in
  GetService client namespace (v1beta1.IngressBackend.ServiceName backend) = Found service →
  find (selects (v1beta1.IngressBackend.ServicePort backend)) (corev1.Service.Ports service)
  = Some portSpec →
  corev1.Service.Type_ service ≠ corev1.ServiceTypeExternalName →
  GetEndpoints client namespace (v1beta1.IngressBackend.ServiceName backend)
  = Found endpoints →
  corev1.Endpoints.Subsets endpoints ≠ [] →
  Forall (fun subset => namedPort portName subset ≠ 0) (corev1.Endpoints.Subsets endpoints) →
  loadService client namespace backend
  = inr (config.Service.mk
           (flat_map (fun subset =>
                        subsetTargets portName subset (namedPort portName subset))
                     (corev1.Endpoints.Subsets endpoints))
           true).
Proof.
  intros portName Hservice Hport Hkind Hendpoints Hsubsets Hlisted.
  unfold loadService. rewrite Hservice, Hport.
  rewrite bool_decide_eq_false_2 by done. rewrite Hendpoints.
  destruct (corev1.Endpoints.Subsets endpoints) as [| subset rest] eqn:E; [done |].
  by rewrite (loadSubsets_listed _ _ _ _ Hlisted).
Qed.

Lemma loadService_targets_of_listed_port_witness :
  loadService (Examples.cluster [] Examples.webEndpoints) "default"
    (Examples.backend "web" (intstr.String "http"))
  = inr (config.Service.mk
           (flat_map (fun subset => subsetTargets "http" subset (namedPort "http" subset))
                     (corev1.Endpoints.Subsets Examples.webEndpoints))
           true).
Proof.
  apply (loadService_targets_of_listed_port (Examples.cluster [] Examples.webEndpoints)
           "default" (Examples.backend "web" (intstr.String "http"))
           Examples.web (corev1.ServicePort.mk "http" 80) Examples.webEndpoints);
    try reflexivity; try discriminate.
  repeat constructor; discriminate.
Defined.

(** X7: for a service of the alias kind (ExternalName), [loadService]
    returns exactly one target, [http://] followed by the external name and
    the number of the first matching service port, whatever the client
    holds as endpoints of the service: no endpoints, an error, or subsets. *)
Theorem loadService_external_name_ignores_endpoints
    (client : Client) (namespace : string) (backend : v1beta1.IngressBackend.t)
    (service : corev1.Service.t) (portSpec : corev1.ServicePort.t)
    (getEndpoints : string -> string -> fetched corev1.Endpoints.t) :
  GetService client namespace (v1beta1.IngressBackend.ServiceName backend) = Found service →
  find (selects (v1beta1.IngressBackend.ServicePort backend)) (corev1.Service.Ports service)
  = Some portSpec →
  corev1.Service.Type_ service = corev1.ServiceTypeExternalName →
  loadService (withEndpoints client getEndpoints) namespace backend
  = inr (config.Service.mk
           [config.Server.mk ("http://" +:+ corev1.Service.ExternalName service +:+ ":"
                              +:+ itoa (corev1.ServicePort.Port portSpec))]
           true).
Proof.
  intros Hservice Hport Hkind. unfold loadService. cbn [withEndpoints GetService].
  rewrite Hservice, Hport, Hkind. by rewrite bool_decide_eq_true_2.
Qed.

Lemma loadService_external_name_ignores_endpoints_witness :
  loadService (withEndpoints (Examples.cluster [] Examples.webEndpoints)
                             (fun _ _ => Failed "unreachable"))
    "default" (Examples.backend "fallback" (intstr.Int 9000))
  = inr (config.Service.mk [config.Server.mk "http://external.example.org:9000"] true).
Proof.
  apply (loadService_external_name_ignores_endpoints
           (Examples.cluster [] Examples.webEndpoints) "default"
           (Examples.backend "fallback" (intstr.Int 9000)) Examples.fallback
           (corev1.ServicePort.mk "" 9000) (fun _ _ => Failed "unreachable"));
    reflexivity.
Defined.

(** X8: every target set that [loadService] returns passes the host header,
    and each of its URLs starts with [http://] or [https://]; for a
    cluster-kind service there is one target for each address of each
    endpoint subset, and for a service of the alias kind there is one
    target. *)
Theorem loadService_target_set_shape
    (client : Client) (namespace : string) (backend : v1beta1.IngressBackend.t)
    (targets : config.Service.t) :
  loadService client namespace backend = inr targets →
  config.Service.PassHostHeader targets = true
  ∧ Forall httpURL (config.Service.Servers targets)
  ∧ ∃ service,
      GetService client namespace (v1beta1.IngressBackend.ServiceName backend)
      = Found service
      ∧ if bool_decide (corev1.Service.Type_ service = corev1.ServiceTypeExternalName)
        then length (config.Service.Servers targets) = 1%nat
        else ∃ endpoints,
               GetEndpoints client namespace (v1beta1.IngressBackend.ServiceName backend)
               = Found endpoints
               ∧ length (config.Service.Servers targets)
                 = length (flat_map corev1.EndpointSubset.Addresses
                                    (corev1.Endpoints.Subsets endpoints)).
Proof.
  unfold loadService.
  destruct (GetService client namespace _) as [err | | service]; try done.
  destruct (find _ _) as [portSpec |]; [| done].
  case_bool_decide as Hkind.
  - intros [= <-]. cbn. split; [done |]. split.
    + constructor; [left; refine (HasPrefix_app "http://" _) | constructor].
    + exists service. split; [done |]. by rewrite bool_decide_eq_true_2.
  - destruct (GetEndpoints client namespace _) as [err | | endpoints]; try done.
    destruct (corev1.Endpoints.Subsets endpoints) as [| subset rest] eqn:E; [done |].
    destruct (loadSubsets _ _ _ _) as [err | servers] eqn:Hload; [done |].
    intros [= <-]. cbn. destruct (loadSubsets_count _ _ _ _ _ Hload) as [Hlen Hurl].
    split; [done |]. split; [by apply Hurl |].
    exists service. split; [done |]. rewrite bool_decide_eq_false_2 by done.
    exists endpoints. split; [done |]. by rewrite E, Hlen.
Qed.

Lemma loadService_target_set_shape_witness :
  config.Service.PassHostHeader
    (config.Service.mk [config.Server.mk "http://10.0.0.5:8080"] true) = true.
Proof.
  refine (proj1 (loadService_target_set_shape
            (Examples.cluster [] Examples.webEndpoints) "default"
            (Examples.backend "web" (intstr.Int 80))
            (config.Service.mk [config.Server.mk "http://10.0.0.5:8080"] true) _)).
  vm_compute; reflexivity.
Defined.

(** ** The status reconciler *)

Lemma append_empty_r (s : string) : s +:+ "" = s.
Proof.
  induction s as [| c s IH]; [done |].
  change (String c s +:+ "") with (String c (s +:+ "")). by rewrite IH.
Qed.

Lemma rev_app_rev_app (a b c : string) :
  String.rev_app (String.rev_app a b) c = String.rev_app b (a +:+ c).
Proof.
  revert b c. induction a as [| x a IH]; intros b c; [done |].
  cbn [String.rev_app]. by rewrite IH.
Qed.

Lemma SplitFrom_length (s : string) (sep : ascii) (cur : string) :
  length (strings.SplitFrom s sep cur) = S (occurrences sep s).
Proof.
  revert cur. induction s as [| c s IH]; intros cur; [done |].
  cbn. destruct (Ascii.eqb c sep); cbn; by rewrite IH.
Qed.

Lemma SplitFrom_plain (s cur : string) :
  noSlash s → strings.SplitFrom s "/" cur = [String.rev (String.rev_app s cur)].
Proof.
  unfold noSlash. revert cur. induction s as [| c s IH]; intros cur; cbn; [done |].
  intros [Hc Hs]%orb_false_iff. rewrite Hc. by apply IH.
Qed.

Lemma SplitFrom_slash (a rest cur : string) :
  noSlash a →
  strings.SplitFrom (a +:+ "/" +:+ rest) "/" cur
  = String.rev (String.rev_app a cur) :: strings.SplitFrom rest "/" "".
Proof.
  unfold noSlash. revert cur. induction a as [| c a IH]; intros cur; [done |].
  change (String c a +:+ "/" +:+ rest) with (String c (a +:+ "/" +:+ rest)).
  cbn. intros [Hc Ha]%orb_false_iff. rewrite Hc. by apply IH.
Qed.

Lemma Split_plain (s : string) : noSlash s → strings.Split s "/" = [s].
Proof.
  intros H. unfold strings.Split. rewrite SplitFrom_plain by done.
  unfold String.rev. by rewrite rev_app_rev_app, append_empty_r.
Qed.

Lemma Split_slash (a rest : string) :
  noSlash a → strings.Split (a +:+ "/" +:+ rest) "/" = a :: strings.Split rest "/".
Proof.
  intros H. unfold strings.Split. rewrite SplitFrom_slash by done.
  unfold String.rev. by rewrite rev_app_rev_app, append_empty_r.
Qed.

Lemma slash_decompose (s : string) :
  strings.Contains s "/" = true → ∃ a rest, s = a +:+ "/" +:+ rest ∧ noSlash a.
Proof.
  induction s as [| c s IH]; cbn; [done |].
  destruct (Ascii.eqb_spec c "/") as [-> | Hc]; cbn.
  - intros _. by exists "", s.
  - intros (a & rest & -> & Ha)%IH. exists (String c a), rest. split; [done |].
    unfold noSlash. cbn. apply orb_false_iff. split; [| done].
    by apply Ascii.eqb_neq.
Qed.

(** A string splits at [/] into exactly two fields when it is a slash-free
    name, a slash, and a slash-free name. *)
Lemma Split_pair_iff (s a b : string) :
  strings.Split s "/" = [a; b] ↔ s = a +:+ "/" +:+ b ∧ noSlash a ∧ noSlash b.
Proof.
  split.
  - intros H. destruct (strings.Contains s "/") eqn:Hs.
    + destruct (slash_decompose s Hs) as (a' & rest & -> & Ha').
      rewrite Split_slash in H by done. injection H as -> Hrest.
      destruct (strings.Contains rest "/") eqn:Hr.
      * destruct (slash_decompose rest Hr) as (b' & rest' & -> & Hb').
        rewrite Split_slash in Hrest by done. injection Hrest as _ Hnil.
        unfold strings.Split in Hnil.
        apply (f_equal length) in Hnil. by rewrite SplitFrom_length in Hnil.
      * rewrite Split_plain in Hrest by done. by injection Hrest as ->.
    + by rewrite Split_plain in H.
  - intros (-> & Ha & Hb). by rewrite Split_slash, Split_plain.
Qed.

(** X9: the status reconciler panics in one case only: a published service
    is configured as [namespace/name], the client finds that service, and the
    list of load-balancer entries of the service is present but empty. *)
Theorem updateIngressStatus_panics_iff
    (p : Provider) (i : v1beta1.Ingress.t) (client : Client) :
  updateIngressStatus p i client = Panic ↔
  ∃ endpoint serviceNamespace serviceName service,
    IngressEndpoint p = Some endpoint
    ∧ EndpointIngress.PublishedService endpoint
      = serviceNamespace +:+ "/" +:+ serviceName
    ∧ noSlash serviceNamespace ∧ noSlash serviceName
    ∧ GetService client serviceNamespace serviceName = Found service
    ∧ corev1.Service.LoadBalancerIngress service = Some [].
Proof.
  unfold updateIngressStatus. split.
  - destruct (IngressEndpoint p) as [endpoint |]; [| done].
    case_bool_decide; [by destruct (_ && _) |].
    destruct (strings.Split _ _) as [| a [| b [| c l]]] eqn:Hsplit; try done.
    apply Split_pair_iff in Hsplit as (Hps & Ha & Hb).
    destruct (GetService client a b) as [err | | service] eqn:Hservice; try done.
    destruct (corev1.Service.LoadBalancerIngress service) as [[| first l] |] eqn:Hlb;
      try done.
    intros _. by exists endpoint, a, b, service.
  - intros (endpoint & a & b & service & -> & Hps & Ha & Hb & Hservice & Hlb).
    rewrite bool_decide_eq_false_2.
    + rewrite (proj2 (Split_pair_iff _ a b)) by done. by rewrite Hservice, Hlb.
    + rewrite Hps. by destruct a.
Qed.

(** X10: when the configured published service is not empty and does not
    have exactly one slash, the status reconciler returns the error of an
    invalid format and writes no status, whatever the cluster holds. *)
Theorem updateIngressStatus_rejects_malformed_reference
    (p : Provider) (i : v1beta1.Ingress.t) (client : Client)
    (endpoint : EndpointIngress.t) :
  IngressEndpoint p = Some endpoint →
  EndpointIngress.PublishedService endpoint ≠ "" →
  occurrences "/" (EndpointIngress.PublishedService endpoint) ≠ 1%nat →
  updateIngressStatus p i client
  = Returned ([], Some ("invalid publishedService format "
                        +:+ "(expected 'namespace/service' format): "
                        +:+ EndpointIngress.PublishedService endpoint)).
Proof.
  intros Hendpoint Hne Hocc. unfold updateIngressStatus. rewrite Hendpoint.
  rewrite bool_decide_eq_false_2
    by (by destruct (EndpointIngress.PublishedService endpoint)).
  pose proof (SplitFrom_length (EndpointIngress.PublishedService endpoint) "/" "") as Hlen.
  fold (strings.Split (EndpointIngress.PublishedService endpoint) "/") in Hlen.
  destruct (strings.Split _ _) as [| a [| b [| c l]]]; try done.
  cbn in Hlen. lia.
Qed.

Lemma updateIngressStatus_rejects_malformed_reference_witness :
  updateIngressStatus (mkProvider "" (Some (EndpointIngress.mk "" "" "kube-system/lb/extra")))
    Examples.site (Examples.cluster [] Examples.webEndpoints)
  = Returned ([], Some ("invalid publishedService format "
                        +:+ "(expected 'namespace/service' format): "
                        +:+ "kube-system/lb/extra")).
Proof.
  apply (updateIngressStatus_rejects_malformed_reference
           (mkProvider "" (Some (EndpointIngress.mk "" "" "kube-system/lb/extra")))
           Examples.site (Examples.cluster [] Examples.webEndpoints)
           (EndpointIngress.mk "" "" "kube-system/lb/extra"));
    [reflexivity | discriminate | vm_compute; lia].
Defined.

(** X11: with a published service [namespace/name] configured, the status
    reconciler reads that service and ignores the configured IP and
    hostname: a client error and a missing service are errors without a
    write, a service whose load-balancer entries are nil is skipped with no
    error and no write, and otherwise the IP and hostname of the first entry
    are written to the status of the ingress, the error being that of the
    write. *)
Theorem updateIngressStatus_mirrors_published_service
    (p : Provider) (i : v1beta1.Ingress.t) (client : Client)
    (endpoint : EndpointIngress.t) (serviceNamespace serviceName : string) :
  let namespace := v1beta1.Ingress.Namespace i in
  let name := v1beta1.Ingress.Name i in
  let reference := EndpointIngress.PublishedService endpoint in
  IngressEndpoint p = Some endpoint →
  reference = serviceNamespace +:+ "/" +:+ serviceName →
  noSlash serviceNamespace → noSlash serviceName →
  match GetService client serviceNamespace serviceName with
  | Failed err =>
      updateIngressStatus p i client
      = Returned ([], Some ("cannot get service " +:+ reference
                            +:+ ", received error: " +:+ err))
  | Missing =>
      updateIngressStatus p i client
      = Returned ([], Some ("missing service: " +:+ reference))
  | Found service =>
      match corev1.Service.LoadBalancerIngress service with
      | None =>
          ∃ line, updateIngressStatus p i client = Returned ([LogDebug line], None)
      | Some [] => updateIngressStatus p i client = Panic
      | Some (first :: _) =>
          updateIngressStatus p i client
          = Returned ([StatusWrite namespace name (corev1.LoadBalancerIngress.IP first)
                         (corev1.LoadBalancerIngress.Hostname first)],
                      UpdateIngressStatus client namespace name
                        (corev1.LoadBalancerIngress.IP first)
                        (corev1.LoadBalancerIngress.Hostname first))
      end
  end.
Proof.
  intros namespace name reference Hendpoint Href Hns Hname.
  unfold updateIngressStatus. rewrite Hendpoint. fold reference namespace name.
  rewrite bool_decide_eq_false_2 by (rewrite Href; by destruct serviceNamespace).
  rewrite (proj2 (Split_pair_iff reference serviceNamespace serviceName)) by done.
  destruct (GetService client serviceNamespace serviceName) as [err | | service]; try done.
  destruct (corev1.Service.LoadBalancerIngress service) as [[| first l] |]; try done.
  by eexists.
Qed.

Lemma updateIngressStatus_mirrors_published_service_witness :
  updateIngressStatus (mkProvider "" (Some (EndpointIngress.mk "192.0.2.1" "" "default/none")))
    Examples.site (Examples.cluster [] Examples.webEndpoints)
  = Returned ([], Some ("missing service: " +:+ "default/none")).
Proof.
  apply (updateIngressStatus_mirrors_published_service
           (mkProvider "" (Some (EndpointIngress.mk "192.0.2.1" "" "default/none")))
           Examples.site (Examples.cluster [] Examples.webEndpoints)
           (EndpointIngress.mk "192.0.2.1" "" "default/none") "default" "none");
    reflexivity.
Defined.

(** X12: one call of the status reconciler writes at most one status, and
    only that of the ingress it was called on; the error it returns after a
    write is the error of that write. Without endpoint settings it does
    nothing and returns no error. *)
Theorem updateIngressStatus_writes_own_status_once
    (p : Provider) (i : v1beta1.Ingress.t) (client : Client)
    (evs : list event) (err : option error) :
  updateIngressStatus p i client = Returned (evs, err) →
  (statusWrites evs = []
   ∨ ∃ ip hostname,
       evs = [StatusWrite (v1beta1.Ingress.Namespace i) (v1beta1.Ingress.Name i)
                          ip hostname]
       ∧ err = UpdateIngressStatus client (v1beta1.Ingress.Namespace i)
                 (v1beta1.Ingress.Name i) ip hostname)
  ∧ (IngressEndpoint p = None → evs = [] ∧ err = None).
Proof.
  unfold updateIngressStatus. intros H. split.
  - repeat case_match; simplify_eq; (by left) || (right; by do 2 eexists).
  - intros Hnone. rewrite Hnone in H. by simplify_eq.
Qed.

Lemma updateIngressStatus_writes_own_status_once_witness :
  statusWrites [StatusWrite "default" "site" "192.0.2.1" ""] = []
  ∨ ∃ ip hostname,
      [StatusWrite "default" "site" "192.0.2.1" ""]
      = [StatusWrite (v1beta1.Ingress.Namespace Examples.site)
           (v1beta1.Ingress.Name Examples.site) ip hostname]
      ∧ (None : option error)
        = UpdateIngressStatus (Examples.cluster [] Examples.webEndpoints)
            (v1beta1.Ingress.Namespace Examples.site)
            (v1beta1.Ingress.Name Examples.site) ip hostname.
Proof.
  refine (proj1 (updateIngressStatus_writes_own_status_once Examples.publishing
            Examples.site (Examples.cluster [] Examples.webEndpoints)
            [StatusWrite "default" "site" "192.0.2.1" ""] None _)).
  reflexivity.
Defined.

(** ** Invariants of the routers and services of a translation *)

Section Invariant.

Variable p : Provider.
Variable client : Client.

(** A property of the routers and services... *)
Variable I : gmap string config.Router.t → gmap string config.Service.t → Prop.

(** ...that the registration of a path keeps... *)
Hypothesis path_step :
  ∀ rs ss namespace host pa service,
    I rs ss →
    checkStringQuoteValidity host = None →
    checkStringQuoteValidity (v1beta1.HTTPIngressPath.Path pa) = None →
    loadService client namespace (v1beta1.HTTPIngressPath.Backend pa) = inr service →
    I (<[routerKey host (v1beta1.HTTPIngressPath.Path pa) :=
           config.Router.mk (routerRule host (v1beta1.HTTPIngressPath.Path pa))
             (serviceKey namespace (v1beta1.HTTPIngressPath.Backend pa)) 0]> rs)
      (<[serviceKey namespace (v1beta1.HTTPIngressPath.Backend pa) := service]> ss).

(** ...and that the registration of the default backend keeps. *)
Hypothesis default_step :
  ∀ rs ss namespace backend service,
    I rs ss →
    ss !! defaultBackendName = None →
    loadService client namespace backend = inr service →
    I (<["/" := defaultRouter]> rs) (<[defaultBackendName := service]> ss).

Lemma loadPath_invariant (namespace host : string) (st : translation)
    (pa : v1beta1.HTTPIngressPath.t) :
  checkStringQuoteValidity host = None →
  I (routers st) (services st) →
  I (routers (loadPath client namespace host st pa))
    (services (loadPath client namespace host st pa)).
Proof.
  intros Hhost Hst. unfold loadPath.
  destruct (loadService _ _ _) as [err | service] eqn:Hservice; [done |].
  destruct (checkStringQuoteValidity (v1beta1.HTTPIngressPath.Path pa)) eqn:Hpath; [done |].
  cbn. by apply path_step.
Qed.

Lemma loadPaths_invariant (namespace host : string)
    (paths : list v1beta1.HTTPIngressPath.t) (st : translation) :
  checkStringQuoteValidity host = None →
  I (routers st) (services st) →
  I (routers (fold_left (loadPath client namespace host) paths st))
    (services (fold_left (loadPath client namespace host) paths st)).
Proof.
  intros Hhost. revert st. induction paths as [| pa paths IH]; intros st Hst; [done |].
  cbn [fold_left]. by apply IH, loadPath_invariant.
Qed.

Lemma loadRules_invariant (ingress : v1beta1.Ingress.t)
    (rules : list v1beta1.IngressRule.t) (st st' : translation) :
  I (routers st) (services st) →
  loadRules p client ingress rules st = Returned st' →
  I (routers st') (services st').
Proof.
  revert st. induction rules as [| rule rules IH]; intros st Hst H; cbn in H;
    [by simplify_eq |].
  destruct (loadRule p client ingress st rule) as [st1 |] eqn:Hrule; [| done].
  apply (IH st1); [| done]. clear IH H. unfold loadRule in Hrule.
  destruct (checkStringQuoteValidity (v1beta1.IngressRule.Host rule)) eqn:Hhost;
    [by simplify_eq |].
  destruct (v1beta1.IngressRule.HTTP rule) as [paths |]; [| done].
  pose proof (loadPaths_invariant (v1beta1.Ingress.Namespace ingress) _ paths st Hhost Hst).
  by destruct (updateIngressStatus p ingress client) as [[evs [err |]] |]; simplify_eq.
Qed.

Lemma loadIngress_invariant (st st' : translation) (ingress : v1beta1.Ingress.t) :
  I (routers st) (services st) →
  loadIngress p client st ingress = Returned st' →
  I (routers st') (services st').
Proof.
  intros Hst. destruct (processed p ingress) eqn:Hproc.
  - destruct (loadIngress_processed p client st ingress Hproc) as (st1 & Hr & Hs & ->).
    rewrite <- Hr, <- Hs in Hst. unfold loadDefaultBackend.
    destruct (bool_decide _).
    + destruct (v1beta1.Ingress.Backend ingress) as [backend |];
        [| by apply loadRules_invariant].
      destruct (services st1 !! defaultBackendName) eqn:Hdef; [by intros [= <-] |].
      destruct (loadService _ _ _) as [err | service] eqn:Hservice; [by intros [= <-] |].
      apply loadRules_invariant. cbn. by eapply default_step.
    + by apply loadRules_invariant.
  - unfold processed in Hproc. rewrite loadIngress_skipped by done. by intros [= <-].
Qed.

Lemma loadIngresses_invariant (ingresses : list v1beta1.Ingress.t)
    (st st' : translation) :
  I (routers st) (services st) →
  loadIngresses p client ingresses st = Returned st' →
  I (routers st') (services st').
Proof.
  revert st. induction ingresses as [| i rest IH]; intros st Hst H; cbn in H;
    [by simplify_eq |].
  destruct (loadIngress p client st i) as [st1 |] eqn:Hi; [| done].
  apply (IH st1); [| done]. by eapply loadIngress_invariant.
Qed.

Lemma loadConfigurationFromIngresses_invariant
    (conf : config.Configuration.t) (evs : list event) :
  I ∅ ∅ →
  loadConfigurationFromIngresses p client = Returned (conf, evs) →
  I (config.Configuration.Routers conf) (config.Configuration.Services conf).
Proof.
  intros Hempty. unfold loadConfigurationFromIngresses.
  destruct (loadIngresses p client (GetIngresses client) emptyTranslation) as [st |] eqn:H;
    [| done].
  intros [= <- <-]. cbn.
  by apply (loadIngresses_invariant (GetIngresses client) emptyTranslation st).
Qed.

End Invariant.

Lemma Contains_ReplaceAll_old (s : string) (old new : ascii) :
  old ≠ new → strings.Contains (strings.ReplaceAll s old new) old = false.
Proof.
  intros Hne. induction s as [| c s IH]; cbn; [done |]. rewrite IH, orb_false_r.
  destruct (Ascii.eqb_spec c old) as [-> | Hc]; by apply Ascii.eqb_neq.
Qed.

(** X13: in the configuration that a translation returns, every router
    names a service that is in the configuration. *)
Theorem routers_name_registered_services
    (p : Provider) (client : Client) (conf : config.Configuration.t) (evs : list event) :
  loadConfigurationFromIngresses p client = Returned (conf, evs) →
  ∀ k router,
    config.Configuration.Routers conf !! k = Some router →
    is_Some (config.Configuration.Services conf !! config.Router.Service router).
Proof.
  apply (loadConfigurationFromIngresses_invariant p client
           (fun rs ss => ∀ k router, rs !! k = Some router →
                                     is_Some (ss !! config.Router.Service router))).
  - intros rs ss namespace host pa service Hinv _ _ _ k router.
    intros [[_ <-] | [_ Hk]]%lookup_insert_Some; cbn.
    + by rewrite lookup_insert_eq.
    + apply lookup_insert_is_Some'. right. by eapply Hinv.
  - intros rs ss namespace backend service Hinv _ _ k router.
    intros [[_ <-] | [_ Hk]]%lookup_insert_Some; cbn.
    + by rewrite lookup_insert_eq.
    + apply lookup_insert_is_Some'. right. by eapply Hinv.
  - by intros k router ?%lookup_empty_Some.
Qed.

Lemma routers_name_registered_services_witness :
  is_Some (config.Configuration.Services Examples.siteConf !! "default/web/80").
Proof.
  refine (routers_name_registered_services Examples.provider
            (Examples.cluster [Examples.site] Examples.webEndpoints) Examples.siteConf
            [StatusReconcile "default" "site"] _ "example-com/"
            (config.Router.mk "Host(`example.com`) && PathPrefix(`/`)" "default/web/80" 0) _);
    vm_compute; reflexivity.
Defined.

(** X14: in the configuration that a translation returns, every service is
    a target set that [loadService] returns for some backend reference; its
    key is the service key of that reference or [default-backend], and no
    service key contains a dot. *)
Theorem services_are_resolved_backends
    (p : Provider) (client : Client) (conf : config.Configuration.t) (evs : list event) :
  loadConfigurationFromIngresses p client = Returned (conf, evs) →
  ∀ k service,
    config.Configuration.Services conf !! k = Some service →
    noDot k
    ∧ ∃ namespace backend,
        loadService client namespace backend = inr service
        ∧ (k = serviceKey namespace backend ∨ k = "default-backend").
Proof.
  apply (loadConfigurationFromIngresses_invariant p client
           (fun _ ss => ∀ k service, ss !! k = Some service →
              noDot k
              ∧ ∃ namespace backend,
                  loadService client namespace backend = inr service
                  ∧ (k = serviceKey namespace backend ∨ k = "default-backend"))).
  - intros rs ss namespace host pa service Hinv _ _ Hload k service'.
    intros [[<- <-] | [_ Hk]]%lookup_insert_Some; [| by apply Hinv].
    split; [by apply Contains_ReplaceAll_old |].
    exists namespace, (v1beta1.HTTPIngressPath.Backend pa). split; [done | by left].
  - intros rs ss namespace backend service Hinv _ Hload k service'.
    intros [[<- <-] | [_ Hk]]%lookup_insert_Some; [| by apply Hinv].
    split; [done |]. exists namespace, backend. split; [done | by right].
  - by intros k service ?%lookup_empty_Some.
Qed.

Lemma services_are_resolved_backends_witness :
  noDot "default/web/80"
  ∧ ∃ namespace backend,
      loadService (Examples.cluster [Examples.site] Examples.webEndpoints) namespace backend
      = inr (config.Service.mk [config.Server.mk "http://10.0.0.5:8080"] true)
      ∧ ("default/web/80" = serviceKey namespace backend
         ∨ "default/web/80" = "default-backend").
Proof.
  refine (services_are_resolved_backends Examples.provider
            (Examples.cluster [Examples.site] Examples.webEndpoints) Examples.siteConf
            [StatusReconcile "default" "site"] _ "default/web/80"
            (config.Service.mk [config.Server.mk "http://10.0.0.5:8080"] true) _);
    vm_compute; reflexivity.
Defined.

(** X15: in the configuration that a translation returns, a router is
    either the router of the default backend under the key [/], or the
    router of a host and a path that both pass the quoting check: its key is
    the host with dots replaced followed by the path, its rule is the match
    expression of that host and path, its service is the service key of a
    backend reference that resolves, and its priority is zero. So the lowest
    priority and the service [default-backend] occur under the key [/]
    only. *)
Theorem routers_are_rules_or_default
    (p : Provider) (client : Client) (conf : config.Configuration.t) (evs : list event) :
  loadConfigurationFromIngresses p client = Returned (conf, evs) →
  ∀ k router,
    config.Configuration.Routers conf !! k = Some router →
    (k = "/" ∧ router = defaultRouter)
    ∨ (∃ host path namespace backend,
         checkStringQuoteValidity host = None
         ∧ checkStringQuoteValidity path = None
         ∧ (∃ service, loadService client namespace backend = inr service)
         ∧ k = routerKey host path
         ∧ router = config.Router.mk (routerRule host path)
                      (serviceKey namespace backend) 0
         ∧ config.Router.Service router ≠ "default-backend"
         ∧ config.Router.Priority router ≠ MinInt32).
Proof.
  apply (loadConfigurationFromIngresses_invariant p client
           (fun rs _ => ∀ k router, rs !! k = Some router →
              (k = "/" ∧ router = defaultRouter)
              ∨ (∃ host path namespace backend,
                   checkStringQuoteValidity host = None
                   ∧ checkStringQuoteValidity path = None
                   ∧ (∃ service, loadService client namespace backend = inr service)
                   ∧ k = routerKey host path
                   ∧ router = config.Router.mk (routerRule host path)
                                (serviceKey namespace backend) 0
                   ∧ config.Router.Service router ≠ "default-backend"
                   ∧ config.Router.Priority router ≠ MinInt32))).
  - intros rs ss namespace host pa service Hinv Hhost Hpath Hload k router.
    intros [[<- <-] | [_ Hk]]%lookup_insert_Some; [| by apply Hinv].
    right. exists host, (v1beta1.HTTPIngressPath.Path pa), namespace,
                  (v1beta1.HTTPIngressPath.Backend pa).
    split; [done |]. split; [done |]. split; [by exists service |].
    repeat split; try done. apply serviceKey_not_default.
  - intros rs ss namespace backend service Hinv _ _ k router.
    intros [[<- <-] | [_ Hk]]%lookup_insert_Some; [by left | by apply Hinv].
  - by intros k router ?%lookup_empty_Some.
Qed.

Lemma routers_are_rules_or_default_witness :
  ("/" = "/" ∧ defaultRouter = defaultRouter)
  ∨ (∃ host path namespace backend,
       checkStringQuoteValidity host = None
       ∧ checkStringQuoteValidity path = None
       ∧ (∃ service, loadService (Examples.cluster [Examples.defaultOne] Examples.webEndpoints) namespace backend = inr service)
       ∧ "/" = routerKey host path
       ∧ defaultRouter = config.Router.mk (routerRule host path)
                           (serviceKey namespace backend) 0
       ∧ config.Router.Service defaultRouter ≠ "default-backend"
       ∧ config.Router.Priority defaultRouter ≠ MinInt32).
Proof.
  refine (routers_are_rules_or_default Examples.provider
            (Examples.cluster [Examples.defaultOne] Examples.webEndpoints)
            (config.Configuration.mk {[ "/" := defaultRouter ]}
               {[ "default-backend" := Examples.fallbackTargets ]} None)
            [] _ "/" defaultRouter _);
    vm_compute; reflexivity.
Defined.

(** ** What a translation depends on *)

(** X16: the translation returns a configuration exactly when, on every
    ingress that passes the class filter, every rule whose host passes the
    quoting check has an HTTP section and the status reconciler does not
    panic on that ingress. *)
Theorem translation_returns_iff (p : Provider) (client : Client) :
  (∃ conf evs, loadConfigurationFromIngresses p client = Returned (conf, evs)) ↔
  ∀ i rule,
    i ∈ GetIngresses client → processed p i = true →
    rule ∈ v1beta1.Ingress.Rules i → hostOk rule = true →
    is_Some (v1beta1.IngressRule.HTTP rule) ∧ updateIngressStatus p i client ≠ Panic.
Proof.
  rewrite loadConfigurationFromIngresses_returns_iff, Forall_forall.
  unfold ingressPanics, rulePanics. split.
  - intros H i rule Hi Hproc Hrule Hhost. specialize (H i Hi). rewrite Hproc in H.
    cbn in H. apply not_true_iff_false in H.
    destruct (v1beta1.IngressRule.HTTP rule) as [paths |] eqn:Hhttp.
    + split; [by eexists |]. intros Hpanic. apply H, existsb_exists. exists rule.
      split; [by apply list_elem_of_In |]. by rewrite Hhost, Hhttp, Hpanic.
    + exfalso. apply H, existsb_exists. exists rule.
      split; [by apply list_elem_of_In |]. by rewrite Hhost, Hhttp.
  - intros H i Hi. destruct (processed p i) eqn:Hproc; [| done]. cbn.
    apply not_true_iff_false. intros (rule & Hrule & Hpanics)%existsb_exists.
    apply list_elem_of_In in Hrule.
    destruct (hostOk rule) eqn:Hhost; [| done].
    destruct (H i rule Hi Hproc Hrule Hhost) as [[paths Hhttp] Hstatus].
    rewrite Hhttp in Hpanics. cbn in Hpanics.
    by destruct (updateIngressStatus p i client).
Qed.

(** X17: the routers and services of a translation do not depend on the TLS
    sections of the ingresses: two snapshots that differ in TLS sections only
    both panic, or both return, with the same routers and the same
    services. *)
Theorem routers_and_services_ignore_tls
    (p : Provider) (client : Client) (ingresses : list v1beta1.Ingress.t) :
  Forall2 sameButTLS (GetIngresses client) ingresses →
  match loadConfigurationFromIngresses p client,
        loadConfigurationFromIngresses p (withIngresses client ingresses) with
  | Returned (conf1, _), Returned (conf2, _) =>
      config.Configuration.Routers conf1 = config.Configuration.Routers conf2
      ∧ config.Configuration.Services conf1 = config.Configuration.Services conf2
  | Panic, Panic => True
  | _, _ => False
  end.
Proof.
  intros Hsame. unfold loadConfigurationFromIngresses.
  cbn [withIngresses GetIngresses]. rewrite loadIngresses_withIngresses.
  pose proof (loadIngresses_http p client _ _ emptyTranslation emptyTranslation Hsame
                eq_refl eq_refl) as H.
  by destruct (loadIngresses p client (GetIngresses client) emptyTranslation),
              (loadIngresses p client ingresses emptyTranslation).
Qed.

Lemma routers_and_services_ignore_tls_witness :
  match loadConfigurationFromIngresses Examples.provider
          (Examples.cluster [Examples.brokenTLS] Examples.webEndpoints),
        loadConfigurationFromIngresses Examples.provider
          (withIngresses (Examples.cluster [Examples.brokenTLS] Examples.webEndpoints)
                         [withTLS Examples.brokenTLS []]) with
  | Returned (conf1, _), Returned (conf2, _) =>
      config.Configuration.Routers conf1 = config.Configuration.Routers conf2
      ∧ config.Configuration.Services conf1 = config.Configuration.Services conf2
  | Panic, Panic => True
  | _, _ => False
  end.
Proof.
  apply (routers_and_services_ignore_tls Examples.provider
           (Examples.cluster [Examples.brokenTLS] Examples.webEndpoints)
           [withTLS Examples.brokenTLS []]).
  repeat constructor.
Defined.

(** X18: an ingress that does not pass the class filter leaves no trace: a
    translation of the snapshot with it and of the snapshot without it end
    alike, with the same configuration and the same effects. *)
Theorem filtered_ingress_leaves_no_trace
    (p : Provider) (client : Client) (pre post : list v1beta1.Ingress.t)
    (ingress : v1beta1.Ingress.t) :
  processed p ingress = false →
  loadConfigurationFromIngresses p (withIngresses client (pre ++ ingress :: post))
  = loadConfigurationFromIngresses p (withIngresses client (pre ++ post)).
Proof.
  intros Hskip. unfold loadConfigurationFromIngresses.
  cbn [withIngresses GetIngresses]. rewrite !loadIngresses_withIngresses.
  rewrite !loadIngresses_app. cbn [loadIngresses].
  destruct (loadIngresses p client pre emptyTranslation) as [st |]; [| done].
  unfold processed in Hskip. by rewrite loadIngress_skipped.
Qed.

Lemma filtered_ingress_leaves_no_trace_witness :
  loadConfigurationFromIngresses (mkProvider "internal" None)
    (withIngresses (Examples.cluster [] Examples.webEndpoints)
                   ([] ++ Examples.hostOnly :: []))
  = loadConfigurationFromIngresses (mkProvider "internal" None)
      (withIngresses (Examples.cluster [] Examples.webEndpoints) ([] ++ [])).
Proof.
  apply (filtered_ingress_leaves_no_trace (mkProvider "internal" None)
           (Examples.cluster [] Examples.webEndpoints) [] [] Examples.hostOnly).
  reflexivity.
Defined.

Lemma loadPath_skipped (client : Client) (namespace host : string) (st : translation)
    (pa : v1beta1.HTTPIngressPath.t) :
  skippedPath client namespace pa →
  ∃ line, loadPath client namespace host st pa = emit [LogError line] st.
Proof.
  unfold loadPath. intros [[err Hload] | [err Hpath]].
  - rewrite Hload. by eexists.
  - destruct (loadService _ _ _); [by eexists |]. rewrite Hpath. by eexists.
Qed.

(** X19: a path whose backend does not resolve, or that does not pass the
    quoting check, is skipped alone: the loop over the paths of a rule
    leaves the same routers, services and cache with that path as without
    it, and writes one error line for it. *)
Theorem skipped_path_leaves_siblings
    (client : Client) (namespace host : string)
    (pre post : list v1beta1.HTTPIngressPath.t) (pa : v1beta1.HTTPIngressPath.t)
    (st : translation) :
  skippedPath client namespace pa →
  sameOutput (fold_left (loadPath client namespace host) (pre ++ pa :: post) st)
             (fold_left (loadPath client namespace host) (pre ++ post) st)
  ∧ ∃ line,
      events (fold_left (loadPath client namespace host) (pre ++ [pa]) st)
      = events (fold_left (loadPath client namespace host) pre st) ++ [LogError line].
Proof.
  intros Hskip. rewrite !fold_left_app. cbn [fold_left].
  set (st1 := fold_left (loadPath client namespace host) pre st).
  destruct (loadPath_skipped client namespace host st1 pa Hskip) as [line ->].
  split; [| by exists line].
  destruct (loadPaths_http client namespace host post (emit [LogError line] st1) st1
              eq_refl eq_refl) as [Hr Hs].
  repeat split; try done.
  destruct (loadPaths_extends client namespace host post (emit [LogError line] st1))
    as [-> _].
  by destruct (loadPaths_extends client namespace host post st1) as [-> _].
Qed.

Lemma skipped_path_leaves_siblings_witness :
  sameOutput
    (fold_left (loadPath (Examples.cluster [] Examples.webEndpoints) "default" "example.com")
       ([] ++ v1beta1.HTTPIngressPath.mk "/api"
                (Examples.backend "absent" (intstr.Int 80))
           :: [v1beta1.HTTPIngressPath.mk "/" (Examples.backend "web" (intstr.Int 80))])
       emptyTranslation)
    (fold_left (loadPath (Examples.cluster [] Examples.webEndpoints) "default" "example.com")
       ([] ++ [v1beta1.HTTPIngressPath.mk "/" (Examples.backend "web" (intstr.Int 80))])
       emptyTranslation).
Proof.
  refine (proj1 (skipped_path_leaves_siblings
            (Examples.cluster [] Examples.webEndpoints) "default" "example.com" []
            [v1beta1.HTTPIngressPath.mk "/" (Examples.backend "web" (intstr.Int 80))]
            (v1beta1.HTTPIngressPath.mk "/api" (Examples.backend "absent" (intstr.Int 80)))
            emptyTranslation _)).
  left. by exists "service not found".
Defined.

Lemma loadRules_app (p : Provider) (client : Client) (ingress : v1beta1.Ingress.t)
    (pre post : list v1beta1.IngressRule.t) (st : translation) :
  loadRules p client ingress (pre ++ post) st
  = match loadRules p client ingress pre st with
    | Panic => Panic
    | Returned st1 => loadRules p client ingress post st1
    end.
Proof.
  revert st. induction pre as [| rule pre IH]; intros st; [done |].
  cbn. destruct (loadRule p client ingress st rule); [apply IH | done].
Qed.

(** X20: a rule whose host does not pass the quoting check is skipped
    alone, also when it has no HTTP section: the loop over the rules of an
    ingress ends alike with that rule and without it, with the same routers
    and services, and the status reconciler is not invoked for it. *)
Theorem invalid_host_rule_leaves_siblings
    (p : Provider) (client : Client) (ingress : v1beta1.Ingress.t)
    (pre post : list v1beta1.IngressRule.t) (rule : v1beta1.IngressRule.t)
    (st : translation) :
  hostOk rule = false →
  sameHTTP (loadRules p client ingress (pre ++ rule :: post) st)
           (loadRules p client ingress (pre ++ post) st)
  ∧ ∀ st1 st2,
      loadRules p client ingress (pre ++ rule :: post) st = Returned st1 →
      loadRules p client ingress (pre ++ post) st = Returned st2 →
      reconciliations (events st1) = reconciliations (events st2).
Proof.
  intros Hhost.
  assert (∀ st0, loadRule p client ingress st0 rule
                 = Returned (emit [LogError ("Invalid syntax for host: "
                                             +:+ v1beta1.IngressRule.Host rule)] st0))
    as Hrule.
  { intros st0. unfold loadRule. unfold hostOk in Hhost.
    apply bool_decide_eq_false in Hhost. by destruct (checkStringQuoteValidity _). }
  split.
  - rewrite !loadRules_app. cbn [loadRules].
    destruct (loadRules p client ingress pre st) as [st1 |]; [| done].
    rewrite Hrule. by apply loadRules_http.
  - intros st1 st2 H1 H2.
    rewrite (loadRules_reconciliations _ _ _ _ _ _ H1).
    rewrite (loadRules_reconciliations _ _ _ _ _ _ H2).
    rewrite !List.filter_app. cbn [List.filter]. by rewrite Hhost.
Qed.

Lemma invalid_host_rule_leaves_siblings_witness :
  sameHTTP
    (loadRules Examples.provider (Examples.cluster [] Examples.webEndpoints) Examples.site
       ([] ++ v1beta1.IngressRule.mk (String strconv.dquote "example.com") None
           :: v1beta1.Ingress.Rules Examples.site) emptyTranslation)
    (loadRules Examples.provider (Examples.cluster [] Examples.webEndpoints) Examples.site
       ([] ++ v1beta1.Ingress.Rules Examples.site) emptyTranslation).
Proof.
  refine (proj1 (invalid_host_rule_leaves_siblings Examples.provider
            (Examples.cluster [] Examples.webEndpoints) Examples.site []
            (v1beta1.Ingress.Rules Examples.site)
            (v1beta1.IngressRule.mk (String strconv.dquote "example.com") None)
            emptyTranslation _)).
  vm_compute; reflexivity.
Defined.

(** X21: over a whole translation, the status reconciler is invoked on the
    ingresses in the order of the snapshot: on each ingress that passes the
    class filter once for each of its rules whose host passes the quoting
    check, and on no other ingress. *)
Theorem reconciliations_of_a_translation
    (p : Provider) (client : Client) (conf : config.Configuration.t) (evs : list event) :
  loadConfigurationFromIngresses p client = Returned (conf, evs) →
  reconciliations evs
  = flat_map (fun i =>
                if processed p i
                then replicate (length (List.filter hostOk (v1beta1.Ingress.Rules i)))
                       (v1beta1.Ingress.Namespace i, v1beta1.Ingress.Name i)
                else [])
             (GetIngresses client).
Proof.
  unfold loadConfigurationFromIngresses.
  destruct (loadIngresses p client (GetIngresses client) emptyTranslation) as [st' |] eqn:H;
    [| done].
  intros [= _ <-].
  change (reconciliations (events st')
          = reconciliations (events emptyTranslation)
            ++ flat_map (fun i =>
                 if processed p i
                 then replicate (length (List.filter hostOk (v1beta1.Ingress.Rules i)))
                        (v1beta1.Ingress.Namespace i, v1beta1.Ingress.Name i)
                 else []) (GetIngresses client)).
  revert H. generalize emptyTranslation. generalize (GetIngresses client).
  intros l. induction l as [| i rest IH]; intros st H; cbn in H.
  - simplify_eq. cbn. by rewrite app_nil_r.
  - destruct (loadIngress p client st i) as [st1 |] eqn:Hi; [| done].
    rewrite (IH _ H). cbn [flat_map]. rewrite app_assoc. f_equal.
    unfold processed. destruct (shouldProcessIngress _ _) eqn:Hclass.
    + exact (loadIngress_reconciliations p client i st st1 Hclass Hi).
    + rewrite loadIngress_skipped in Hi by done. simplify_eq. by rewrite app_nil_r.
Qed.

Lemma reconciliations_of_a_translation_witness :
  reconciliations [StatusReconcile "default" "site"]
  = flat_map (fun i =>
                if processed Examples.provider i
                then replicate (length (List.filter hostOk (v1beta1.Ingress.Rules i)))
                       (v1beta1.Ingress.Namespace i, v1beta1.Ingress.Name i)
                else [])
             (GetIngresses (Examples.cluster [Examples.site] Examples.webEndpoints)).
Proof.
  apply (reconciliations_of_a_translation Examples.provider
           (Examples.cluster [Examples.site] Examples.webEndpoints) Examples.siteConf
           [StatusReconcile "default" "site"]).
  vm_compute; reflexivity.
Defined.

(** ** The configuration does not depend on the endpoint settings *)

Lemma loadPaths_sameOutput (client : Client) (namespace host : string)
    (paths : list v1beta1.HTTPIngressPath.t) (st1 st2 : translation) :
  sameOutput st1 st2 →
  sameOutput (fold_left (loadPath client namespace host) paths st1)
             (fold_left (loadPath client namespace host) paths st2).
Proof.
  intros (Hr & Hs & Ht).
  destruct (loadPaths_http client namespace host paths st1 st2 Hr Hs) as [Hr' Hs'].
  repeat split; try done.
  destruct (loadPaths_extends client namespace host paths st1) as [-> _].
  by destruct (loadPaths_extends client namespace host paths st2) as [-> _].
Qed.

Lemma loadRules_providers (p1 p2 : Provider) (client : Client)
    (ingress : v1beta1.Ingress.t) (rules : list v1beta1.IngressRule.t)
    (st1 st2 st1' st2' : translation) :
  sameOutput st1 st2 →
  loadRules p1 client ingress rules st1 = Returned st1' →
  loadRules p2 client ingress rules st2 = Returned st2' →
  sameOutput st1' st2'.
Proof.
  revert st1 st2. induction rules as [| rule rules IH]; intros st1 st2 Hsame H1 H2;
    cbn in H1, H2; [by simplify_eq |].
  destruct (loadRule p1 client ingress st1 rule) as [a |] eqn:Ha; [| done].
  destruct (loadRule p2 client ingress st2 rule) as [b |] eqn:Hb; [| done].
  apply (IH a b); [| done | done]. clear IH H1 H2.
  unfold loadRule in Ha, Hb.
  destruct (checkStringQuoteValidity _); [by simplify_eq |].
  destruct (v1beta1.IngressRule.HTTP rule) as [paths |]; [| done].
  pose proof (loadPaths_sameOutput client (v1beta1.Ingress.Namespace ingress)
                (v1beta1.IngressRule.Host rule) paths st1 st2 Hsame) as Hpaths.
  destruct (updateIngressStatus p1 ingress client) as [[evs1 [err1 |]] |];
    destruct (updateIngressStatus p2 ingress client) as [[evs2 [err2 |]] |];
    by simplify_eq.
Qed.

Lemma loadIngress_providers (p1 p2 : Provider) (client : Client)
    (ingress : v1beta1.Ingress.t) (st1 st2 st1' st2' : translation) :
  IngressClass p1 = IngressClass p2 →
  sameOutput st1 st2 →
  loadIngress p1 client st1 ingress = Returned st1' →
  loadIngress p2 client st2 ingress = Returned st2' →
  sameOutput st1' st2'.
Proof.
  intros Hclass (Hr & Hs & Ht). unfold loadIngress. rewrite Hclass, Ht.
  destruct (negb _); [intros [= <-] [= <-]; by repeat split |].
  set (r := getTLS ingress client (tlsConfigs st2)).
  set (a := match tlsError r with Some _ => _ | None => _ end).
  set (b := match tlsError r with Some _ => _ | None => _ end).
  assert (sameOutput a b) as (Hr' & Hs' & Ht').
  { subst a b. by destruct (tlsError r). }
  unfold loadDefaultBackend. rewrite Hs'.
  destruct (bool_decide _).
  - destruct (v1beta1.Ingress.Backend ingress) as [backend |];
      [| by apply loadRules_providers].
    destruct (services b !! defaultBackendName); [intros [= <-] [= <-]; by repeat split |].
    destruct (loadService _ _ _); [intros [= <-] [= <-]; by repeat split |].
    apply loadRules_providers. repeat split; cbn; by rewrite ?Hr', ?Hs'.
  - by apply loadRules_providers.
Qed.

Lemma loadIngresses_providers (p1 p2 : Provider) (client : Client)
    (ingresses : list v1beta1.Ingress.t) (st1 st2 st1' st2' : translation) :
  IngressClass p1 = IngressClass p2 →
  sameOutput st1 st2 →
  loadIngresses p1 client ingresses st1 = Returned st1' →
  loadIngresses p2 client ingresses st2 = Returned st2' →
  sameOutput st1' st2'.
Proof.
  intros Hclass. revert st1 st2.
  induction ingresses as [| i rest IH]; intros st1 st2 Hsame H1 H2; cbn in H1, H2;
    [by simplify_eq |].
  destruct (loadIngress p1 client st1 i) as [a |] eqn:Ha; [| done].
  destruct (loadIngress p2 client st2 i) as [b |] eqn:Hb; [| done].
  apply (IH a b); [| done | done]. by eapply loadIngress_providers.
Qed.

(** X22: the configuration is a function of the snapshot and the class
    filter: two providers with the same class filter, whatever their
    endpoint settings, translate a snapshot into the same configuration
    whenever both translations return. *)
Theorem configuration_ignores_endpoint_settings
    (p1 p2 : Provider) (client : Client) (conf1 conf2 : config.Configuration.t)
    (evs1 evs2 : list event) :
  IngressClass p1 = IngressClass p2 →
  loadConfigurationFromIngresses p1 client = Returned (conf1, evs1) →
  loadConfigurationFromIngresses p2 client = Returned (conf2, evs2) →
  conf1 = conf2.
Proof.
  intros Hclass. unfold loadConfigurationFromIngresses.
  destruct (loadIngresses p1 client _ _) as [st1 |] eqn:H1; [| done].
  destruct (loadIngresses p2 client _ _) as [st2 |] eqn:H2; [| done].
  intros [= <- _] [= <- _].
  destruct (loadIngresses_providers p1 p2 client (GetIngresses client)
              emptyTranslation emptyTranslation st1 st2 Hclass) as (Hr & Hs & Ht);
    try done.
  unfold finish. by rewrite Hr, Hs, Ht.
Qed.

Lemma configuration_ignores_endpoint_settings_witness :
  Examples.siteConf = Examples.siteConf.
Proof.
  apply (configuration_ignores_endpoint_settings Examples.provider Examples.publishing
           (Examples.cluster [Examples.site] Examples.webEndpoints)
           Examples.siteConf Examples.siteConf
           [StatusReconcile "default" "site"]
           [StatusReconcile "default" "site"; StatusWrite "default" "site" "192.0.2.1" ""]);
    vm_compute; reflexivity.
Defined.

(** ** The messages of the watch loop *)

Lemma adjacent_snoc {A : Type} (l : list A) (x : A) :
  (∀ n a b, l !! n = Some a → l !! S n = Some b → a ≠ b) →
  (∀ a, last l = Some a → a ≠ x) →
  ∀ n a b, (l ++ [x]) !! n = Some a → (l ++ [x]) !! S n = Some b → a ≠ b.
Proof.
  intros Hl Hlast n a b Ha Hb.
  destruct (decide (S n < length l)%nat) as [Hlt | Hge].
  - rewrite lookup_app_l in Ha, Hb by lia. by eapply Hl.
  - assert (S n = length l) as Hn.
    { apply lookup_lt_Some in Hb. rewrite length_app in Hb. cbn in Hb. lia. }
    rewrite lookup_app_l in Ha by lia.
    rewrite lookup_app_r in Hb by lia. rewrite Hn, Nat.sub_diag in Hb. cbn in Hb.
    simplify_eq. apply Hlast. rewrite last_lookup, <- Hn. done.
Qed.

Lemma publish_invariant (s : loopState) (conf : config.Configuration.t) :
  let good s :=
    lastConfiguration s = config.Message.Configuration <$> last (sent s)
    ∧ Forall (fun m => config.Message.ProviderName m = "kubernetes") (sent s)
    ∧ ∀ n m1 m2, sent s !! n = Some m1 → sent s !! S n = Some m2 → m1 ≠ m2 in
  good s → good (publish s conf).
Proof.
  intros good (Hlast & Hname & Hadj). unfold publish.
  case_decide as Hsame; [done |]. subst good. cbn [lastConfiguration sent].
  split; [by rewrite last_snoc |]. split.
  - apply Forall_app. split; [done |]. by constructor.
  - apply adjacent_snoc; [done |]. intros m Hm ->. apply Hsame.
    by rewrite Hlast, Hm.
Qed.

(** X23: in a run of the watch loop from the empty state, over any events,
    the last published configuration is the configuration of the last
    message sent (none when nothing was sent), every message names the
    provider [kubernetes], and no message carries the same configuration as
    the message sent just before it. *)
Theorem watch_loop_never_repeats_a_message (p : Provider) (eventsChan : list Client) :
  let s := (operation p eventsChan (mkLoop None [])).1 in
  lastConfiguration s = config.Message.Configuration <$> last (sent s)
  ∧ Forall (fun m => config.Message.ProviderName m = "kubernetes") (sent s)
  ∧ ∀ n m1 m2,
      sent s !! n = Some m1 → sent s !! S n = Some m2 →
      config.Message.Configuration m1 ≠ config.Message.Configuration m2.
Proof.
  cbn zeta.
  assert (∀ s0,
    (lastConfiguration s0 = config.Message.Configuration <$> last (sent s0)
     ∧ Forall (fun m => config.Message.ProviderName m = "kubernetes") (sent s0)
     ∧ ∀ n m1 m2, sent s0 !! n = Some m1 → sent s0 !! S n = Some m2 → m1 ≠ m2) →
    let s := (operation p eventsChan s0).1 in
    lastConfiguration s = config.Message.Configuration <$> last (sent s)
    ∧ Forall (fun m => config.Message.ProviderName m = "kubernetes") (sent s)
    ∧ ∀ n m1 m2, sent s !! n = Some m1 → sent s !! S n = Some m2 → m1 ≠ m2) as Hrun.
  { induction eventsChan as [| client rest IH]; intros s0 Hs0; [done |].
    cbn [operation]. unfold onEvent.
    destruct (loadConfigurationFromIngresses p client) as [[conf evs] |]; [| done].
    apply IH. by apply publish_invariant. }
  destruct (Hrun (mkLoop None [])) as (Hlast & Hname & Hadj).
  { cbn. split; [done |]. split; [constructor |]. intros n m1 m2 H1. by rewrite lookup_nil in H1. }
  split; [done |]. split; [done |].
  intros n m1 m2 H1 H2 Hconf. apply (Hadj n m1 m2 H1 H2).
  rewrite Forall_forall in Hname.
  pose proof (Hname m1 (list_elem_of_lookup_2 _ _ _ H1)) as N1.
  pose proof (Hname m2 (list_elem_of_lookup_2 _ _ _ H2)) as N2.
  destruct m1, m2. cbn in *. congruence.
Qed.

(** ** The quoting check *)

Lemma scanBody_newline (st : strconv.scan) (s : string) :
  strings.Contains s strconv.newline = true → strconv.scanBody st s = false.
Proof.
  revert st. induction s as [| c s IH]; intros st; [done |].
  cbn [strings.Contains strconv.scanBody].
  destruct (Ascii.eqb c strconv.newline) eqn:E.
  - apply Ascii.eqb_eq in E. subst c. intros _.
    by destruct st as [| | wide todo v | todo v].
  - cbn [orb]. intros Hs. destruct (strconv.step st c); [by apply IH | done].
Qed.

Lemma scanBody_plain (s : string) :
  strings.Contains s "\" = false →
  strconv.scanBody strconv.Plain s
  = negb (strings.Contains s strconv.dquote || strings.Contains s strconv.newline).
Proof.
  induction s as [| c s IH]; [done |].
  cbn [strings.Contains strconv.scanBody strconv.step].
  intros [Hc Hs]%orb_false_iff. rewrite Hc.
  destruct (Ascii.eqb c strconv.newline); [by rewrite orb_true_r |].
  destruct (Ascii.eqb c strconv.dquote); [done |]. cbn [orb]. by apply IH.
Qed.

(** X24: a host or path without a backslash passes the quoting check
    exactly when it has no double quote and no newline. *)
Theorem checkStringQuoteValidity_without_backslash (value : string) :
  strings.Contains value "\" = false →
  (checkStringQuoteValidity value = None ↔
   strings.Contains value strconv.dquote = false
   ∧ strings.Contains value strconv.newline = false).
Proof.
  intros H. unfold checkStringQuoteValidity, strconv.UnquoteOk.
  rewrite scanBody_plain by done.
  destruct (strings.Contains value strconv.dquote),
           (strings.Contains value strconv.newline); cbn; split; try done;
    by intros [? ?].
Qed.

Lemma checkStringQuoteValidity_without_backslash_witness :
  checkStringQuoteValidity "example.com" = None ↔
  strings.Contains "example.com" strconv.dquote = false
  ∧ strings.Contains "example.com" strconv.newline = false.
Proof.
  apply (checkStringQuoteValidity_without_backslash "example.com"). reflexivity.
Defined.

(** X25: a host or path with a newline never passes the quoting check,
    whatever else it holds. *)
Theorem checkStringQuoteValidity_rejects_newline (value : string) :
  strings.Contains value strconv.newline = true →
  checkStringQuoteValidity value = Some "invalid syntax".
Proof.
  intros H. unfold checkStringQuoteValidity, strconv.UnquoteOk.
  by rewrite scanBody_newline.
Qed.

Lemma checkStringQuoteValidity_rejects_newline_witness :
  checkStringQuoteValidity ("example" +:+ String strconv.newline "com")
  = Some "invalid syntax".
Proof.
  apply (checkStringQuoteValidity_rejects_newline
           ("example" +:+ String strconv.newline "com")).
  reflexivity.
Defined.

(** ** Secrets are fetched once in a translation *)

Lemma loadPaths_secretFetches (client : Client) (namespace host : string)
    (paths : list v1beta1.HTTPIngressPath.t) (st : translation) :
  secretFetches (events (fold_left (loadPath client namespace host) paths st))
  = secretFetches (events st).
Proof.
  revert st. induction paths as [| pa paths IH]; intros st; [done |].
  cbn [fold_left]. rewrite IH. unfold loadPath.
  repeat case_match; cbn; rewrite ?secretFetches_app; cbn; by rewrite ?app_nil_r.
Qed.

Lemma updateIngressStatus_secretFetches (p : Provider) (i : v1beta1.Ingress.t)
    (client : Client) (evs : list event) (err : option error) :
  updateIngressStatus p i client = Returned (evs, err) → secretFetches evs = [].
Proof.
  unfold updateIngressStatus. intros H.
  repeat case_match; simplify_eq; done.
Qed.

Lemma loadRules_secretFetches (p : Provider) (client : Client)
    (ingress : v1beta1.Ingress.t) (rules : list v1beta1.IngressRule.t)
    (st st' : translation) :
  loadRules p client ingress rules st = Returned st' →
  secretFetches (events st') = secretFetches (events st).
Proof.
  revert st. induction rules as [| rule rules IH]; intros st H; cbn in H;
    [by simplify_eq |].
  destruct (loadRule p client ingress st rule) as [st1 |] eqn:Hrule; [| done].
  rewrite (IH _ H). clear IH H. unfold loadRule in Hrule.
  destruct (checkStringQuoteValidity _).
  { simplify_eq. cbn. rewrite secretFetches_app. cbn. by rewrite app_nil_r. }
  destruct (v1beta1.IngressRule.HTTP rule) as [paths |]; [| done].
  destruct (updateIngressStatus p ingress client) as [[evs err] |] eqn:Hstatus; [| done].
  apply updateIngressStatus_secretFetches in Hstatus.
  destruct err; simplify_eq; cbn;
    rewrite !secretFetches_app, ?Hstatus, loadPaths_secretFetches; cbn;
    by rewrite ?app_nil_r.
Qed.

Lemma loadIngress_secretFetches (p : Provider) (client : Client)
    (ingress : v1beta1.Ingress.t) (st st' : translation) :
  processed p ingress = true →
  loadIngress p client st ingress = Returned st' →
  secretFetches (events st')
  = secretFetches (events st)
    ++ secretFetches (tlsEvents (getTLS ingress client (tlsConfigs st))).
Proof.
  unfold processed. intros Hclass. unfold loadIngress. rewrite Hclass. cbn [negb].
  set (r := getTLS ingress client (tlsConfigs st)).
  set (st1 := mkTranslation _ _ _ _).
  set (st2 := match tlsError r with Some _ => _ | None => _ end).
  assert (secretFetches (events st2)
          = secretFetches (events st) ++ secretFetches (tlsEvents r)) as Hst2.
  { subst st2 st1. destruct (tlsError r); cbn; rewrite ?secretFetches_app; cbn;
      by rewrite ?app_nil_r. }
  rewrite <- Hst2. unfold loadDefaultBackend.
  repeat case_match; intros Hload; simplify_eq; cbn;
    rewrite ?(loadRules_secretFetches _ _ _ _ _ _ Hload); cbn;
    rewrite ?secretFetches_app; cbn; by rewrite ?app_nil_r.
Qed.

Lemma getTLSSections_fetched_cached (client : Client) (namespace : string)
    (sections : list v1beta1.IngressTLS.t) (m : gmap string tls.CertAndStores.t) :
  let r := getTLSSections client namespace sections m [] in
  ∀ fetch,
    fetch ∈ secretFetches (tlsEvents r) → resolves client fetch = true →
    is_Some (tlsCache r !! (fetch.1 +:+ "/" +:+ fetch.2)).
Proof.
  revert m. induction sections as [| t rest IH]; intros m.
  { cbn. by intros fetch ?%elem_of_nil. }
  rewrite getTLSSections_cons. cbn zeta.
  case_bool_decide as Hname.
  { rewrite getTLSSections_events. cbn. apply IH. }
  destruct (m !! _) eqn:Hm; [apply IH |].
  destruct t as [secretName]. cbn in *.
  destruct (resolveSecret client namespace secretName) as [err | cert] eqn:Hres.
  { cbn. intros fetch ->%list_elem_of_singleton. unfold resolves. cbn. by rewrite Hres. }
  rewrite getTLSSections_events. cbn.
  intros fetch [-> | Hin]%elem_of_cons Hok.
  - cbn. exists cert. eapply lookup_weaken; [| apply getTLSSections_keeps].
    apply lookup_insert_eq.
  - by apply IH.
Qed.

(** X26: in one translation no secret that resolves is fetched twice: among
    the fetches of the translation, in order, those whose secret resolves
    are pairwise distinct. (A secret that fails to resolve is not cached and
    is fetched again by each ingress that names it.) *)
Theorem resolving_secrets_are_fetched_once
    (p : Provider) (client : Client) (conf : config.Configuration.t) (evs : list event) :
  loadConfigurationFromIngresses p client = Returned (conf, evs) →
  NoDup (List.filter (resolves client) (secretFetches evs)).
Proof.
  unfold loadConfigurationFromIngresses.
  destruct (loadIngresses p client (GetIngresses client) emptyTranslation) as [st' |] eqn:H;
    [| done].
  intros [= _ <-].
  assert (∀ l st st',
    loadIngresses p client l st = Returned st' →
    (NoDup (List.filter (resolves client) (secretFetches (events st)))
     ∧ ∀ fetch, fetch ∈ secretFetches (events st) → resolves client fetch = true →
                is_Some (tlsConfigs st !! (fetch.1 +:+ "/" +:+ fetch.2))) →
    NoDup (List.filter (resolves client) (secretFetches (events st')))) as Hrun.
  { clear. intros l. induction l as [| i rest IH]; intros st st' H [Hnd Hcached];
      cbn in H; [by simplify_eq |].
    destruct (loadIngress p client st i) as [st1 |] eqn:Hi; [| done].
    apply (IH st1 st' H). clear IH H.
    destruct (processed p i) eqn:Hproc.
    2:{ unfold processed in Hproc. rewrite loadIngress_skipped in Hi by done.
        by simplify_eq. }
    rewrite (loadIngress_secretFetches _ _ _ _ _ Hproc Hi).
    destruct (loadIngress_tls p client st st1 i Hproc Hi) as [Hcache _].
    cbn zeta in Hcache. rewrite Hcache. unfold getTLS.
    set (r := getTLSSections client (v1beta1.Ingress.Namespace i)
                (v1beta1.Ingress.TLS i) (tlsConfigs st) []).
    destruct (getTLSSections_fetches client (v1beta1.Ingress.Namespace i)
                (v1beta1.Ingress.TLS i) (tlsConfigs st)) as [Hnew Hfresh].
    fold r in Hnew, Hfresh. cbn zeta in Hnew, Hfresh.
    pose proof (getTLSSections_fetched_cached client (v1beta1.Ingress.Namespace i)
                  (v1beta1.Ingress.TLS i) (tlsConfigs st)) as Hkept.
    fold r in Hkept. cbn zeta in Hkept.
    split.
    - rewrite List.filter_app. apply NoDup_app. split; [done |]. split.
      + intros [ns name] [Hold Hres]%list_elem_of_In%filter_In.
        intros [Hin _]%list_elem_of_In%filter_In.
        apply list_elem_of_In in Hold, Hin.
        destruct (Hfresh ns name Hin) as (-> & _ & _ & Hnone).
        destruct (Hcached _ Hold Hres) as [cert Hcert]. cbn in Hcert. congruence.
      + apply NoDup_ListNoDup, List.NoDup_filter, NoDup_ListNoDup, Hnew.
    - intros fetch [Hold | Hin]%elem_of_app Hres.
      + destruct (Hcached fetch Hold Hres) as [cert Hcert]. exists cert.
        eapply lookup_weaken; [exact Hcert | apply getTLSSections_keeps].
      + by apply Hkept. }
  apply (Hrun _ _ _ H). cbn. split; [constructor | by intros fetch ?%elem_of_nil].
Qed.

Lemma resolving_secrets_are_fetched_once_witness :
  NoDup (List.filter
           (resolves (Examples.cluster [Examples.tlsB; Examples.tlsA] Examples.webEndpoints))
           (secretFetches
              [SecretFetch "default" "b-secret"; StatusReconcile "default" "tls-b";
               SecretFetch "default" "a-secret"; StatusReconcile "default" "tls-a"])).
Proof.
  apply (resolving_secrets_are_fetched_once Examples.provider
           (Examples.cluster [Examples.tlsB; Examples.tlsA] Examples.webEndpoints)
           Examples.siteConfTLS
           [SecretFetch "default" "b-secret"; StatusReconcile "default" "tls-b";
            SecretFetch "default" "a-secret"; StatusReconcile "default" "tls-a"]).
  vm_compute; reflexivity.
Defined.

(** ** More on subsets and on router keys *)

(** X27: for a cluster-kind service, when the first endpoint subset lists no
    port named like the matched service port, or lists it with the number
    zero, [loadService] fails with the error [cannot define a port],
    whatever the later subsets list. *)
Theorem loadService_fails_when_first_subset_lacks_port
    (client : Client) (namespace : string) (backend : v1beta1.IngressBackend.t)
    (service : corev1.Service.t) (portSpec : corev1.ServicePort.t)
    (endpoints : corev1.Endpoints.t) (first : corev1.EndpointSubset.t)
    (rest : list corev1.EndpointSubset.t) :
  GetService client namespace (v1beta1.IngressBackend.ServiceName backend) = Found service →
  find (selects (v1beta1.IngressBackend.ServicePort backend)) (corev1.Service.Ports service)
  = Some portSpec →
  corev1.Service.Type_ service ≠ corev1.ServiceTypeExternalName →
  GetEndpoints client namespace (v1beta1.IngressBackend.ServiceName backend)
  = Found endpoints →
  corev1.Endpoints.Subsets endpoints = first :: rest →
  namedPort (corev1.ServicePort.Name portSpec) first = 0 →
  loadService client namespace backend = inl "cannot define a port".
Proof.
  intros Hservice Hport Hkind Hendpoints Hsubsets Hfirst.
  unfold loadService. rewrite Hservice, Hport.
  rewrite bool_decide_eq_false_2 by done. rewrite Hendpoints, Hsubsets.
  cbn [loadSubsets]. unfold namedPort in Hfirst.
  destruct (find _ (corev1.EndpointSubset.Ports first)) as [ep |].
  - by rewrite Hfirst.
  - done.
Qed.

Lemma loadService_fails_when_first_subset_lacks_port_witness :
  loadService
    (Examples.cluster []
       (corev1.Endpoints.mk (rev (corev1.Endpoints.Subsets Examples.staleEndpoints))))
    "default" (Examples.backend "web" (intstr.Int 80))
  = inl "cannot define a port".
Proof.
  apply (loadService_fails_when_first_subset_lacks_port
           (Examples.cluster []
              (corev1.Endpoints.mk (rev (corev1.Endpoints.Subsets Examples.staleEndpoints))))
           "default" (Examples.backend "web" (intstr.Int 80)) Examples.web
           (corev1.ServicePort.mk "http" 80)
           (corev1.Endpoints.mk (rev (corev1.Endpoints.Subsets Examples.staleEndpoints)))
           (corev1.EndpointSubset.mk [corev1.EndpointAddress.mk "10.0.0.2"]
                                     [corev1.EndpointPort.mk "metrics" 9090])
           [corev1.EndpointSubset.mk [corev1.EndpointAddress.mk "10.0.0.1"]
                                     [corev1.EndpointPort.mk "http" 8080]]);
    try reflexivity.
  discriminate.
Defined.

(** X28: in the loop over the paths of a rule, the last path registered
    under a router key defines the router of that key: after the loop, the
    key of a path that is not skipped, and that no later path shares, holds
    the router of that path, with its match expression, its service key and
    priority zero. *)
Theorem last_path_of_a_key_defines_the_router
    (client : Client) (namespace host : string)
    (pre post : list v1beta1.HTTPIngressPath.t) (pa : v1beta1.HTTPIngressPath.t)
    (st : translation) (service : config.Service.t) :
  let path := v1beta1.HTTPIngressPath.Path pa in
  let backend := v1beta1.HTTPIngressPath.Backend pa in
  loadService client namespace backend = inr service →
  checkStringQuoteValidity path = None →
  routerKey host path
    ∉ map (fun later => routerKey host (v1beta1.HTTPIngressPath.Path later)) post →
  routers (fold_left (loadPath client namespace host) (pre ++ pa :: post) st)
    !! routerKey host path
  = Some (config.Router.mk (routerRule host path) (serviceKey namespace backend) 0).
Proof.
  intros path backend Hload Hpath Hlater.
  rewrite fold_left_app. cbn [fold_left].
  rewrite loadPaths_router by done.
  unfold loadPath. fold backend path. rewrite Hload, Hpath. cbn.
  apply lookup_insert_eq.
Qed.

Lemma last_path_of_a_key_defines_the_router_witness :
  routers (fold_left
             (loadPath (Examples.cluster [] Examples.webEndpoints) "default" "example.com")
             ([v1beta1.HTTPIngressPath.mk "/" (Examples.backend "fallback" (intstr.Int 9000))]
              ++ v1beta1.HTTPIngressPath.mk "/" (Examples.backend "web" (intstr.Int 80))
                 :: [])
             emptyTranslation)
    !! routerKey "example.com" "/"
  = Some (config.Router.mk (routerRule "example.com" "/")
            (serviceKey "default" (Examples.backend "web" (intstr.Int 80))) 0).
Proof.
  apply (last_path_of_a_key_defines_the_router
           (Examples.cluster [] Examples.webEndpoints) "default" "example.com"
           [v1beta1.HTTPIngressPath.mk "/" (Examples.backend "fallback" (intstr.Int 9000))]
           []
           (v1beta1.HTTPIngressPath.mk "/" (Examples.backend "web" (intstr.Int 80)))
           emptyTranslation
           (config.Service.mk [config.Server.mk "http://10.0.0.5:8080"] true)).
  - vm_compute; reflexivity.
  - reflexivity.
  - apply not_elem_of_nil.
Defined.
